(** * snitch: TODO grammar, in-place rewriter and tree walker

    Shallow embedding of the Go sources of snitch (the current version,
    [src/unnamed/part_000] together with the first half of [src/main.go]).
    Go strings are byte strings; they are modelled as [list ascii]
    (Rocq's [ascii] is an 8-bit character). *)

From Stdlib Require Import Ascii String ZArith DecimalString Sorted.
From stdpp Require Import base list gmap strings.

Abbreviation str := (list ascii).

(** A Go string literal, as a byte list. *)
Definition lit (s : string) : str := list_ascii_of_string s.

Definition nl : ascii := "010"%char.
Definition cr : ascii := "013"%char.

(** ** Go's [regexp] on the fragment used by the program

    The program only compiles patterns built from [^], [$], literal
    characters, capturing groups and the greedy star [.*], where [.]
    matches any character except a newline (no [s] flag).  Go's
    [FindStringSubmatch] returns the leftmost match and, among the matches
    starting there, the submatches a backtracking matcher finds first
    (leftmost-first, Perl semantics); the matcher below is that
    backtracking matcher, written in continuation-passing style.  Matching
    bytewise instead of runewise gives the same captures here, since every
    boundary of a [.*] run in these patterns is next to an ASCII literal or
    at an end of the text. *)
Module Regexp.

Inductive re :=
| Eps
| Begin                (* ^ *)
| End                  (* $ *)
| Char (c : ascii)
| AnyStar              (* .*, greedy *)
| Group (r : re)       (* ( r ), capturing; the patterns nest no groups *)
| Cat (r1 r2 : re).

(** A continuation receives the position reached, the rest of the input
    and the captures so far. *)
Definition cont := nat -> str -> list str -> option (list str).

(** Greedy [.*]: try the longest newline-free run first, then shorter. *)
Fixpoint star (pos : nat) (s : str) (caps : list str) (k : cont)
    : option (list str) :=
  match s with
  | [] => k pos s caps
  | c :: s' =>
      if ascii_dec c nl then k pos s caps
      else match star (S pos) s' caps k with
           | Some r => Some r
           | None => k pos s caps
           end
  end.

Fixpoint m (r : re) (pos : nat) (s : str) (caps : list str) (k : cont)
    : option (list str) :=
  match r with
  | Eps => k pos s caps
  | Begin => if decide (pos = 0) then k pos s caps else None
  | End => match s with [] => k pos s caps | _ :: _ => None end
  | Char c =>
      match s with
      | c' :: s' => if ascii_dec c c' then k (S pos) s' caps else None
      | [] => None
      end
  | AnyStar => star pos s caps k
  | Group r1 =>
      m r1 pos s caps (fun pos' s' caps' => k pos' s' (caps' ++ [take (pos' - pos) s]))
  | Cat r1 r2 => m r1 pos s caps (fun pos' s' caps' => m r2 pos' s' caps' k)
  end.

(** Unanchored search from every start position, leftmost first; the
    result is [whole match :: submatches], as [FindStringSubmatch]. *)
Fixpoint search (r : re) (i : nat) (s : str) : option (list str) :=
  match m r i s [] (fun j _ caps => Some (take (j - i) s :: caps)) with
  | Some g => Some g
  | None => match s with [] => None | _ :: s' => search r (S i) s' end
  end.

Definition FindStringSubmatch (r : re) (s : str) : option (list str) :=
  search r 0 s.

Definition word (w : str) : re := foldr (fun c r => Cat (Char c) r) Eps w.
Definition seq (rs : list re) : re := foldr Cat Eps rs.

End Regexp.

Import Regexp.

(** The pattern of [lineAsUnreportedTodo], in Go syntax
    [^( .* )TODO: ( .* )$] (spaces added inside the groups). *)
Definition unreportedTodoRe : re :=
  seq [Begin; Group AnyStar; word (lit "TODO: "); Group AnyStar; End].

(** The pattern of [lineAsReportedTodo], in Go syntax
    [^( .* )TODO\( ( .* ) \): ( .* )$] (spaces added inside the groups). *)
Definition reportedTodoRe : re :=
  seq [Begin; Group AnyStar; word (lit "TODO("); Group AnyStar;
       word (lit "): "); Group AnyStar; End].

(** ** The [Todo] entity *)

Record Todo := mkTodo {
  Prefix : str;
  Suffix : str;
  ID : option str;          (* [*string]: [nil] is [None] *)
  Filename : str;
  Line : Z;
  Title : str
}.

(** [func (todo Todo) String() string] *)
Definition String (todo : Todo) : str :=
  match ID todo with
  | None => Prefix todo ++ lit "TODO: " ++ Suffix todo
  | Some id => Prefix todo ++ lit "TODO(" ++ id ++ lit "): " ++ Suffix todo
  end.

Section Grammar.

(** [projectConfig.Title.Transform]: the project configuration code is not
    part of the claims; it is an arbitrary function of the suffix. *)
Variable TitleTransform : str -> str.

(** [lineAsUnreportedTodo] *)
Definition lineAsUnreportedTodo (line : str) : option Todo :=
  match FindStringSubmatch unreportedTodoRe line with
  | Some groups =>
      let prefix := nth 1 groups [] in
      let suffix := nth 2 groups [] in
      Some {| Prefix := prefix; Suffix := suffix; ID := None;
              Filename := []; Line := 0; Title := TitleTransform suffix |}
  | None => None
  end.

(** [lineAsReportedTodo] *)
Definition lineAsReportedTodo (line : str) : option Todo :=
  match FindStringSubmatch reportedTodoRe line with
  | Some groups =>
      let prefix := nth 1 groups [] in
      let suffix := nth 3 groups [] in
      let id := nth 2 groups [] in
      Some {| Prefix := prefix; Suffix := suffix; ID := Some id;
              Filename := []; Line := 0; Title := TitleTransform suffix |}
  | None => None
  end.

(** [LineAsTodo]: the unreported shape is tried first. *)
Definition LineAsTodo (line : str) : option Todo :=
  match lineAsUnreportedTodo line with
  | Some todo => Some todo
  | None => lineAsReportedTodo line
  end.

End Grammar.


Inductive error :=
| EOF                  (* io.EOF *)
| ENOENT
| EACCES
| EIO
| ENOSPC
| ErrTooLong           (* bufio.ErrTooLong *)
| GitError.

(** Files by name; the content is the file's bytes. *)
Abbreviation fs := (gmap str str).

(** Faults the environment may inject into [updateToFile] and
    [updateInPlace]: a read error after some bytes of the input, a failing
    [os.Create], a disk that holds only so many bytes of the output, a
    failing [os.Rename]. *)
Record Faults := mkFaults {
  read_fault : option (nat * error);
  create_fault : option error;
  disk_space : option nat;
  rename_fault : option error
}.

Definition no_faults : Faults := mkFaults None None None None.

(** The bytes a reader delivers before it fails, and its final error
    ([None] is a clean end of file). *)
Definition reader (content : str) (f : option (nat * error)) : str * option error :=
  match f with
  | None => (content, None)
  | Some (n, e) => (take n content, Some e)
  end.

(** ** [bufio.Scanner] with [bufio.ScanLines] *)

(** [bufio.MaxScanTokenSize = 64 * 1024]: the scanner's buffer never grows
    beyond it. *)
Definition MaxScanTokenSize : nat := 65536.

(** [dropCR]: a token loses one trailing carriage return. *)
Definition dropCR (l : str) : str :=
  match last l with
  | Some c => if ascii_dec c cr then removelast l else l
  | None => l
  end.

(** The tokens [Scan] returns before it returns false, and [Err()].
    [rcur] is the current, unfinished line, reversed.  A line that does not
    fit in the buffer together with its newline stops the scan with
    [ErrTooLong]; at the end of the delivered bytes the last unterminated
    line is still a token, also when the reader failed (the split function
    is called with [atEOF] set); [io.EOF] is not reported by [Err()]. *)
Fixpoint scan_go (rcur : str) (data : str) (rerr : option error)
    : list str * option error :=
  match data with
  | [] =>
      match rcur with
      | [] => ([], rerr)
      | _ :: _ =>
          if decide (MaxScanTokenSize <= length rcur) then ([], Some ErrTooLong)
          else ([dropCR (rev rcur)], rerr)
      end
  | c :: data' =>
      if ascii_dec c nl then
        if decide (MaxScanTokenSize < S (length rcur)) then ([], Some ErrTooLong)
        else let '(toks, err) := scan_go [] data' rerr in (dropCR (rev rcur) :: toks, err)
      else scan_go (c :: rcur) data' rerr
  end.

Definition scanLines (data : str) (rerr : option error) : list str * option error :=
  scan_go [] data rerr.

(** ** The in-place rewriter *)

(** The body of the [for scanner.Scan()] loop of [updateToFile]: every
    line goes through [lineCallback]; unless removed, [fmt.Fprintln] writes
    the replacement followed by a newline. *)
Fixpoint emitLines (lineCallback : Z -> str -> str * bool) (lineNumber : Z)
    (lines : list str) : str :=
  match lines with
  | [] => []
  | line :: rest =>
      let '(replace, remove) := lineCallback lineNumber line in
      (if remove then [] else replace ++ [nl])
        ++ emitLines lineCallback (lineNumber + 1)%Z rest
  end.

(** What a full disk keeps of the written bytes; [Fprintln]'s error is
    discarded by the code. *)
Definition onDisk (space : option nat) (written : str) : str :=
  match space with None => written | Some n => take n written end.

(** [func (todo Todo) updateToFile(outputFilename, lineCallback) error].
    [os.Open] fails on a missing file; [os.Create] creates or truncates the
    output.  The loop ends when [scanner.Scan()] returns false, and
    [scanner.Err()] is never consulted; the function returns the [err] of
    [os.Create], which is [nil] there (the deferred [Close] assigns [err]
    after the return value has been fixed, so it cannot change it). *)
Definition updateToFile (files : fs) (ft : Faults) (todo : Todo)
    (outputFilename : str) (lineCallback : Z -> str -> str * bool)
    : fs * option error :=
  match files !! Filename todo with
  | None => (files, Some ENOENT)
  | Some content =>
      match create_fault ft with
      | Some e => (files, Some e)
      | None =>
          let '(data, rerr) := reader content (read_fault ft) in
          let '(lines, _) := scanLines data rerr in
          let out := emitLines lineCallback 1 lines in
          (<[outputFilename := onDisk (disk_space ft) out]> files, None)
      end
  end.

(** [os.Rename(src, dst)] *)
Definition rename (files : fs) (src dst : str) : fs :=
  match files !! src with
  | Some c => <[dst := c]> (delete src files)
  | None => files
  end.

(** [func (todo Todo) updateInPlace(lineCallback) error] *)
Definition updateInPlace (files : fs) (ft : Faults) (todo : Todo)
    (lineCallback : Z -> str -> str * bool) : fs * option error :=
  let outputFilename := Filename todo ++ lit ".snitch" in
  match updateToFile files ft todo outputFilename lineCallback with
  | (files1, Some e) => (files1, Some e)
  | (files1, None) =>
      match rename_fault ft with
      | Some e => (files1, Some e)
      | None => (rename files1 outputFilename (Filename todo), None)
      end
  end.

(** [func (todo Todo) Update() error] *)
Definition Update (files : fs) (ft : Faults) (todo : Todo) : fs * option error :=
  updateInPlace files ft todo (fun lineNumber line =>
    if Z.eqb lineNumber (Line todo) then (String todo, false) else (line, false)).

(** [func (todo Todo) Remove() error] *)
Definition Remove (files : fs) (ft : Faults) (todo : Todo) : fs * option error :=
  updateInPlace files ft todo (fun lineNumber line =>
    if Z.eqb lineNumber (Line todo) then ([], true) else (line, false)).

(** The identity transform of the spec's [rewriteLine]. *)
Definition identityCallback (lineNumber : Z) (line : str) : str * bool :=
  (line, false).

(** The delete transform targeting line [n]. *)
Definition deleteCallback (n : Z) (lineNumber : Z) (line : str) : str * bool :=
  if Z.eqb lineNumber n then ([], true) else (line, false).

(** ** The tree walker *)

(** What [os.Open(path)] gives [WalkTodosOfFile]: an error, or a file whose
    successive [reader.ReadLine()] calls return the texts [texts] and then
    the error [final] ([EOF] at a clean end of file). *)
Inductive openResult :=
| OpenErr (e : error)
| Opened (texts : list str) (final : error).

(** What [git ls-files dirpath] gives: a failed command, or the listed
    paths, one per output line. *)
Inductive lsResult :=
| LsErr (e : error)
| LsOk (paths : list str).

Section Walk.

Variable TitleTransform : str -> str.

(** The visitor [visit func(Todo) error]; it may be stateful (the report
    subcommand reads standard input and collects Todos), so it threads a
    state of its own. *)
Context {V : Type}.
Variable visit : V -> Todo -> V * option error.

(** The [for line := 1; err == nil; line = line + 1] loop of
    [WalkTodosOfFile]; it also returns the Todos passed to [visit], in
    order. *)
Fixpoint walkLines (path : str) (line : Z) (texts : list str) (v : V)
    : V * list Todo * option error :=
  match texts with
  | [] => (v, [], None)
  | text :: rest =>
      match LineAsTodo TitleTransform text with
      | None => walkLines path (line + 1)%Z rest v
      | Some todo =>
          let todo' := {| Prefix := Prefix todo; Suffix := Suffix todo;
                          ID := ID todo; Filename := path; Line := line;
                          Title := Title todo |} in
          match visit v todo' with
          | (v', Some e) => (v', [todo'], Some e)
          | (v', None) =>
              let '(v'', visited, err) := walkLines path (line + 1)%Z rest v' in
              (v'', todo' :: visited, err)
          end
      end
  end.

(** [WalkTodosOfFile]: after the loop, an error other than [io.EOF] is
    returned. *)
Definition WalkTodosOfFile (open : str -> openResult) (path : str) (v : V)
    : V * list Todo * option error :=
  match open path with
  | OpenErr e => (v, [], Some e)
  | Opened texts final =>
      match walkLines path 1 texts v with
      | (v', visited, Some e) => (v', visited, Some e)
      | (v', visited, None) =>
          match final with
          | EOF => (v', visited, None)
          | e => (v', visited, Some e)
          end
      end
  end.

(** The [for scanner.Scan()] loop of [WalkTodosOfDir] over the listed
    paths. *)
Fixpoint walkFiles (open : str -> openResult) (paths : list str) (v : V)
    : V * list Todo * option error :=
  match paths with
  | [] => (v, [], None)
  | path :: rest =>
      match WalkTodosOfFile open path v with
      | (v', visited, Some e) => (v', visited, Some e)
      | (v', visited, None) =>
          let '(v'', visited', err) := walkFiles open rest v' in
          (v'', visited ++ visited', err)
      end
  end.

(** [WalkTodosOfDir] *)
Definition WalkTodosOfDir (ls : lsResult) (open : str -> openResult) (v : V)
    : V * list Todo * option error :=
  match ls with
  | LsErr e => (v, [], Some e)
  | LsOk paths => walkFiles open paths v
  end.

End Walk.

(** ** Concrete runs *)

(** A line that does not fit in the scanner's buffer. *)
Definition longLine : str := repeat "x"%char MaxScanTokenSize.

Definition emptyTodo : Todo :=
  {| Prefix := []; Suffix := []; ID := None; Filename := []; Line := 0;
     Title := [] |}.

Definition c1_todo : Todo :=
  {| Prefix := lit "// "; Suffix := lit "fix"; ID := Some (lit "#1");
     Filename := lit "main.go"; Line := 1; Title := lit "fix" |}.

Definition c1_files : fs :=
  {[ lit "main.go" := lit "// TODO: fix" ++ [nl] ++ longLine ++ [nl] ++ lit "b" ++ [nl] ]}.

Definition c6_todo : Todo :=
  {| Prefix := []; Suffix := lit "b"; ID := None;
     Filename := lit "main.go"; Line := 1; Title := lit "b" |}.

Definition c6_files : fs :=
  {[ lit "main.go" := lit "a" ++ [nl] ++ lit "b" ++ [nl] ++ longLine ++ [nl]
                      ++ lit "c" ++ [nl] ]}.

Definition c10_todo : Todo :=
  {| Prefix := []; Suffix := lit "a"; ID := Some (lit "#7");
     Filename := lit "main.go"; Line := 5; Title := lit "a" |}.

Definition c10_files : fs :=
  {[ lit "main.go" := lit "a" ++ [nl] ++ longLine ++ [nl] ]}.

Definition c2_todo : Todo :=
  {| Prefix := []; Suffix := lit "TODO: x"; ID := Some (lit "1");
     Filename := []; Line := 0; Title := [] |}.

Definition c3_line : str := lit "TODO(#1): a TODO: b".

Definition c5_content : str := lit "a" ++ [cr; nl] ++ lit "b" ++ [cr; nl].

Definition c5_files : fs := {[ lit "f.go" := c5_content ]}.

Definition c5_todo : Todo :=
  {| Prefix := []; Suffix := []; ID := None; Filename := lit "f.go";
     Line := 0; Title := [] |}.

Definition c5_clean : str := lit "a" ++ [nl] ++ lit "b".

Definition c5_clean_files : fs := {[ lit "f.go" := c5_clean ]}.

Definition c2_reported : Todo :=
  {| Prefix := lit "// "; Suffix := lit "fix"; ID := Some (lit "#1");
     Filename := lit "main.go"; Line := 3; Title := lit "fix" |}.

Definition c9_line : str := lit "a TODO: b TODO: c".

Definition c9_todo : Todo :=
  {| Prefix := lit "a TODO: b "; Suffix := lit "c"; ID := None;
     Filename := []; Line := 0; Title := lit "c" |}.

Definition c3_reported_line : str := lit "x TODO(#1): y".

(** A repository with three listed files: [a.go] holds one Todo, [b.go]
    cannot be opened, [c.go] is never reached; the visitor counts. *)
Definition c4_open (path : str) : openResult :=
  if decide (path = lit "a.go") then Opened [lit "// TODO: x"; lit "y"] EOF
  else OpenErr EACCES.

Definition c4_visit (n : nat) (t : Todo) : nat * option error := (S n, None).

Definition c4_todo : Todo :=
  {| Prefix := lit "// "; Suffix := lit "x"; ID := None;
     Filename := lit "a.go"; Line := 1; Title := lit "x" |}.

(** ** Shapes of the two patterns

    The patterns [^( .* )W( .* )$] and [^( .* )W1( .* )W2( .* )$] for
    literal words, and the continuations the matcher runs them with. *)

Module Shapes.
Import Regexp.

Definition k0 (line : str) : cont :=
  fun j _ caps => Some (take (j - 0) line :: caps).

Section OneWord.
Variable W : str.

Definition pat1 : re := seq [Begin; Group AnyStar; word W; Group AnyStar; End].

Definition K1 (line : str) : cont :=
  fun j rest caps =>
    m (word W) j rest (caps ++ [take (j - 0) line])
      (fun pos' s' caps' => m (Cat (Group AnyStar) (Cat End Eps)) pos' s' caps' (k0 line)).

End OneWord.
End Shapes.

Module Shapes2.
Import Regexp Shapes.

Section TwoWords.
Variables W1 W2 : str.

Definition pat2 : re :=
  seq [Begin; Group AnyStar; word W1; Group AnyStar; word W2; Group AnyStar; End].

(** After the middle group, which started at [pos] on [s]. *)
Definition K2i (line : str) (pos : nat) (s : str) : cont :=
  fun pos' s' caps' =>
    m (word W2) pos' s' (caps' ++ [take (pos' - pos) s])
      (fun a b c => m (Cat (Group AnyStar) (Cat End Eps)) a b c (k0 line)).

(** After the first group. *)
Definition K2o (line : str) : cont :=
  fun j rest caps =>
    m (word W1) j rest (caps ++ [take (j - 0) line])
      (fun pos' s' caps' => star pos' s' caps' (K2i line pos' s')).

End TwoWords.
End Shapes2.

(** ** Substrings *)

(** [strings.Contains(l, w)] *)
Definition contains (w l : str) : Prop := exists a b, l = a ++ w ++ b.

(** The same test, computed: [w] is a prefix of [l] or of one of its
    tails. *)
Fixpoint containsb (w l : str) : bool :=
  bool_decide (w `prefix_of` l) ||
  match l with [] => false | _ :: l' => containsb w l' end.

(** [w] straddles the boundary of [a ++ b]. *)
Definition straddle (w a b : str) : Prop :=
  exists w1 w2 a' b', w = w1 ++ w2 /\ w1 <> [] /\ w2 <> [] /\
    a = a' ++ w1 /\ b = w2 ++ b'.

(** ** Rewritten text *)

(** Lines written one after the other, each followed by a newline. *)
Definition joinLines (ls : list str) : str := foldr (fun l acc => l ++ [nl] ++ acc) [] ls.

(** The input with a newline appended unless it is empty or ends in one. *)
Definition withFinalNewline (c : str) : str :=
  match last c with
  | Some x => if ascii_dec x nl then c else c ++ [nl]
  | None => c
  end.

(** ** [bufio.Reader.ReadLine], as [WalkTodosOfFile] reads a file *)

(** [bufio.defaultBufSize], the buffer of [bufio.NewReader]. *)
Definition defaultBufSize : nat := 4096.

(** The texts that successive [reader.ReadLine()] calls return on the bytes
    [data], and the error that ends them ([final], once the bytes are used
    up).  [rcur] is the unfinished fragment, reversed.  [ReadSlice] looks
    for a newline among the next [defaultBufSize] bytes; when there is none
    it returns the full buffer ([ErrBufferFull]), which [ReadLine] returns
    as a text of its own, after putting back a carriage return that ends
    it.  A text that ends in a newline loses it, and a carriage return just
    before it; the last text before the end of the bytes is returned as it
    is.  The file is read as an [os.File] is: its bytes, then the error on
    a later read. *)
Fixpoint readLine_go (rcur : str) (data : str) (final : error) : list str * error :=
  match data with
  | [] =>
      match rcur with
      | [] => ([], final)
      | _ :: _ => ([rev rcur], final)
      end
  | c :: data' =>
      if ascii_dec c nl then
        let line := match rcur with
                    | c' :: r' => if ascii_dec c' cr then rev r' else rev rcur
                    | [] => []
                    end in
        let '(texts, err) := readLine_go [] data' final in (line :: texts, err)
      else if decide (S (length rcur) = defaultBufSize) then
        if ascii_dec c cr then
          let '(texts, err) := readLine_go [cr] data' final in (rev rcur :: texts, err)
        else
          let '(texts, err) := readLine_go [] data' final in (rev (c :: rcur) :: texts, err)
      else readLine_go (c :: rcur) data' final
  end.

(** [os.Open(path)] in [WalkTodosOfFile], then its [reader.ReadLine()]
    calls; [readFault path] is the read fault of that file. *)
Definition openFile (files : fs) (readFault : str -> option (nat * error)) (path : str)
    : openResult :=
  match files !! path with
  | None => OpenErr ENOENT
  | Some content =>
      let '(data, rerr) := reader content (readFault path) in
      let '(texts, final) :=
        readLine_go [] data (match rerr with None => EOF | Some e => e end) in
      Opened texts final
  end.

(** The newline-separated segments of a text, the last one included;
    [rcur] is the unfinished segment, reversed. *)
Fixpoint splitNL (rcur : str) (s : str) : list str :=
  match s with
  | [] => [rev rcur]
  | c :: s' => if ascii_dec c nl then rev rcur :: splitNL [] s' else splitNL (c :: rcur) s'
  end.

(** ** The GitHub API *)

(** [strconv.Itoa] *)
Definition Itoa (n : Z) : str := lit (NilZero.string_of_int (Z.to_int n)).

Section Github.

(** Go's [float64], to which [encoding/json] decodes every number, and the
    conversion [int(f)]. *)
Context {float64 : Type} (float_to_int : float64 -> Z).

(** A value of a decoded [map[string]interface{}]; the code never looks
    inside nested arrays or objects. *)
Inductive jvalue :=
| JNull
| JBool (b : bool)
| JNum (f : float64)
| JStr (s : str)
| JNested.

(** An HTTP request as [queryGithubAPI] builds it; [Token] goes in the
    [Authorization] header, [Body] is the JSON-encoded map ([None]: nil). *)
Record Request := mkRequest {
  Method : str;
  URL : str;
  Token : str;
  Body : option (gmap str jvalue)
}.

(** What becomes of a request: [http.NewRequest] fails, [client.Do] fails,
    the response fails to decode, or it decodes to [null] or to an
    object. *)
Inductive Response :=
| NewRequestError (e : error)
| DoError (e : error)
| DecodeError (e : error)
| DecodedNull
| DecodedObject (v : gmap str jvalue).

Variable http : Request -> Response.

(** [queryGithubAPI]: the error of [Encode] is overwritten by the next
    assignment and never read; decoding [null] leaves the map nil. *)
Definition queryGithubAPI (token method url : str) (jsonBody : option (gmap str jvalue))
    : option (gmap str jvalue) * option error :=
  match http (mkRequest method url token jsonBody) with
  | NewRequestError e => (None, Some e)
  | DoError e => (None, Some e)
  | DecodeError e => (None, Some e)
  | DecodedNull => (None, None)
  | DecodedObject v => (Some v, None)
  end.

(** [json[key]]: indexing a nil map gives nil. *)
Definition index (json : option (gmap str jvalue)) (key : str) : option jvalue :=
  match json with Some v => v !! key | None => None end.

(** [func (todo Todo) RetrieveGithubStatus(creds, repo) (string, error)];
    [None] is a panic: dereferencing a nil [ID], slicing an empty one with
    [[1:]], or the type assertion [.(string)] failing. *)
Definition RetrieveGithubStatus (token repo : str) (todo : Todo) : option (str * option error) :=
  match ID todo with
  | None => None
  | Some [] => None
  | Some (_ :: num) =>
      let '(json, err) :=
        queryGithubAPI token (lit "GET")
          (lit "https://api.github.com/repos/" ++ repo ++ lit "/issues/" ++ num) None in
      match err with
      | Some e => Some ([], Some e)
      | None =>
          match index json (lit "state") with
          | Some (JStr state) => Some (state, None)
          | _ => None
          end
      end
  end.

(** [func (todo Todo) ReportTodo(creds, repo, body) (Todo, error)]; [None]
    is a panic of the type assertion [.(float64)]. *)
Definition ReportTodo (token repo body : str) (todo : Todo) : option (Todo * option error) :=
  let '(json, err) :=
    queryGithubAPI token (lit "POST") (lit "https://api.github.com/repos/" ++ repo ++ lit "/issues")
      (Some (<[lit "title" := JStr (Title todo)]> {[ lit "body" := JStr body ]})) in
  match index json (lit "number") with
  | Some (JNum f) =>
      Some ({| Prefix := Prefix todo; Suffix := Suffix todo;
               ID := Some (lit "#" ++ Itoa (float_to_int f));
               Filename := Filename todo; Line := Line todo; Title := Title todo |}, err)
  | _ => None
  end.

End Github.

Arguments JNull {float64}.
Arguments JNested {float64}.
Arguments DecodedNull {float64}.

(** ** The visitor of [reportSubcommand] (main.go) *)

(** The prompt loop [for err == nil && text != "y\n" && text != "n\n"] over
    [reader.ReadString('\n')] on standard input: [Some (answer, rest)]
    with the input left, or [None] when the input ends before a line
    ["y\n"] or ["n\n"] ([io.EOF]).  [rcur] is the unfinished line,
    reversed. *)
Fixpoint askReport (rcur : str) (input : str) : option (bool * str) :=
  match input with
  | [] => None
  | c :: input' =>
      if ascii_dec c nl then
        let text := rev (c :: rcur) in
        if decide (text = lit "y" ++ [nl]) then Some (true, input')
        else if decide (text = lit "n" ++ [nl]) then Some (false, input')
        else askReport [] input'
      else askReport (c :: rcur) input'
  end.

(** The visitor passed to [WalkTodosOfDir]; its state is the unread
    standard input and [todosToReport].  What it prints is left out. *)
Definition reportVisit (st : str * list Todo) (todo : Todo) : (str * list Todo) * option error :=
  let '(input, todosToReport) := st in
  match ID todo with
  | Some _ => (st, None)
  | None =>
      match askReport [] input with
      | None => (([], todosToReport), Some EOF)
      | Some (true, rest) => ((rest, todosToReport ++ [todo]), None)
      | Some (false, rest) => ((rest, todosToReport), None)
      end
  end.

(** ** [LogString] and the visitor of [listSubcommand] (main.go) *)




(** ** The earlier program of main.go

    The second [package main] of main.go: its own [Todo] without title,
    a [LineAsTodo] for the unreported shape only, and [TodosOfFile],
    [TodosOfDir] and [ListSubcommand], which read files with a
    [bufio.Scanner]. *)
Module Legacy.

Record Todo := mkTodo {
  Prefix : str;
  Suffix : str;
  Id : option str;
  Filename : str;
  Line : Z
}.

(** [func (todo Todo) String() string] *)
Definition String (todo : Todo) : str :=
  match Id todo with
  | None =>
      Filename todo ++ lit ":" ++ Itoa (Line todo) ++ lit ": " ++
      Prefix todo ++ lit "TODO: " ++ Suffix todo ++ [nl]
  | Some id =>
      Filename todo ++ lit ":" ++ Itoa (Line todo) ++ lit ": " ++
      Prefix todo ++ lit "TODO(" ++ id ++ lit "): " ++ Suffix todo ++ [nl]
  end.

(** [LineAsTodo]: the pattern [^( .* )TODO: ( .* )$] is [unreportedTodoRe]. *)
Definition LineAsTodo (line : str) : option Todo :=
  match FindStringSubmatch unreportedTodoRe line with
  | Some groups =>
      Some {| Prefix := nth 1 groups []; Suffix := nth 2 groups []; Id := None;
              Filename := []; Line := 0 |}
  | None => None
  end.

(** The [for scanner.Scan()] loop of [TodosOfFile], from line number
    [line] on. *)
Fixpoint todosOfLines (path : str) (line : Z) (lines : list str) : list Todo :=
  match lines with
  | [] => []
  | text :: rest =>
      match LineAsTodo text with
      | Some todo =>
          {| Prefix := Prefix todo; Suffix := Suffix todo; Id := Id todo;
             Filename := path; Line := line |} :: todosOfLines path (line + 1)%Z rest
      | None => todosOfLines path (line + 1)%Z rest
      end
  end.

(** [TodosOfFile]: [os.Open] fails on a missing file; [rf] is the read
    fault of each file, as for [updateToFile]; the Todos found and
    [scanner.Err()] are returned. *)
Definition TodosOfFile (files : fs) (rf : str -> option (nat * error)) (path : str)
    : list Todo * option error :=
  match files !! path with
  | None => ([], Some ENOENT)
  | Some content =>
      let '(data, rerr) := reader content (rf path) in
      let '(lines, err) := scanLines data rerr in
      (todosOfLines path 1 lines, err)
  end.

(** [TodosOfDir] over the regular files [filepath.Walk] visits, in its
    order: the callback appends the Todos of each file and returns the
    first error, which stops the walk. *)
Fixpoint TodosOfDir (files : fs) (rf : str -> option (nat * error)) (paths : list str)
    : list Todo * option error :=
  match paths with
  | [] => ([], None)
  | path :: rest =>
      match TodosOfFile files rf path with
      | (_, Some e) => ([], Some e)
      | (todos, None) =>
          let '(result, err) := TodosOfDir files rf rest in (todos ++ result, err)
      end
  end.

(** [ListSubcommand]: the error of [TodosOfDir] is dropped and every Todo
    is printed with [%v], that is with [String]. *)
Definition ListSubcommand (files : fs) (rf : str -> option (nat * error))
    (paths : list str) : str :=
  concat (map String (fst (TodosOfDir files rf paths))).

End Legacy.

(** ** The intermediate program (part_001)

    The same [Todo] type and [String] method as the earlier program of
    main.go; a [LineAsTodo] for both shapes, with the patterns of
    [lineAsUnreportedTodo] and [lineAsReportedTodo]; a [WalkTodosOfFile]
    that reads with a [bufio.Scanner] and visits each Todo; a [TodosOfDir]
    whose visitor appends to the result. *)
Module Middle.
Import Legacy.

(** [LineAsUnreportedTodo] *)
Definition LineAsUnreportedTodo (line : str) : option Todo :=
  match FindStringSubmatch unreportedTodoRe line with
  | Some groups =>
      Some {| Prefix := nth 1 groups []; Suffix := nth 2 groups []; Id := None;
              Filename := []; Line := 0 |}
  | None => None
  end.

(** [LineAsReportedTodo] *)
Definition LineAsReportedTodo (line : str) : option Todo :=
  match FindStringSubmatch reportedTodoRe line with
  | Some groups =>
      Some {| Prefix := nth 1 groups []; Suffix := nth 3 groups [];
              Id := Some (nth 2 groups []); Filename := []; Line := 0 |}
  | None => None
  end.

(** [LineAsTodo]: the unreported shape is tried first. *)
Definition LineAsTodo (line : str) : option Todo :=
  match LineAsUnreportedTodo line with
  | Some todo => Some todo
  | None => LineAsReportedTodo line
  end.

Section Walk.
Context {V : Type}.
Variable visit : V -> Todo -> V * option error.

(** The [for scanner.Scan()] loop of [WalkTodosOfFile], from line number
    [line] on: the first error of [visit] is returned at once. *)
Fixpoint walkLines (path : str) (line : Z) (lines : list str) (v : V) : V * option error :=
  match lines with
  | [] => (v, None)
  | text :: rest =>
      match LineAsTodo text with
      | Some todo =>
          match visit v {| Prefix := Prefix todo; Suffix := Suffix todo; Id := Id todo;
                           Filename := path; Line := line |} with
          | (v', Some e) => (v', Some e)
          | (v', None) => walkLines path (line + 1)%Z rest v'
          end
      | None => walkLines path (line + 1)%Z rest v
      end
  end.

(** [WalkTodosOfFile]: [os.Open] fails on a missing file; [rf] is the read
    fault of each file; after the loop [scanner.Err()] is returned. *)
Definition WalkTodosOfFile (files : fs) (rf : str -> option (nat * error)) (path : str)
    (v : V) : V * option error :=
  match files !! path with
  | None => (v, Some ENOENT)
  | Some content =>
      let '(data, rerr) := reader content (rf path) in
      let '(lines, err) := scanLines data rerr in
      match walkLines path 1 lines v with
      | (v', Some e) => (v', Some e)
      | (v', None) => (v', err)
      end
  end.

End Walk.

(** The visitor of [TodosOfDir]: [result = append(result, todo)]. *)
Definition collect (result : list Todo) (todo : Todo) : list Todo * option error :=
  (result ++ [todo], None).

(** [filepath.Walk] over the regular files it visits, in its order, with
    the callback of [TodosOfDir]: the first error stops the walk. *)
Fixpoint walkPaths (files : fs) (rf : str -> option (nat * error)) (paths : list str)
    (result : list Todo) : list Todo * option error :=
  match paths with
  | [] => (result, None)
  | path :: rest =>
      match WalkTodosOfFile collect files rf path result with
      | (result', Some e) => (result', Some e)
      | (result', None) => walkPaths files rf rest result'
      end
  end.

(** [TodosOfDir] *)
Definition TodosOfDir (files : fs) (rf : str -> option (nat * error)) (paths : list str)
    : list Todo * option error :=
  walkPaths files rf paths [].

(** [ListSubcommand]: the error of [TodosOfDir] is dropped. *)
Definition ListSubcommand (files : fs) (rf : str -> option (nat * error))
    (paths : list str) : str :=
  concat (map String (fst (TodosOfDir files rf paths))).

End Middle.

(** Inputs for the further properties: a file with a Todo on its second
    line, the Todo as [ReportTodo] would rewrite it, the Todo as the walker
    finds it, the parse of [c3_reported_line], a line filling [bufio]'s
    buffer, fault sets, and a server answering every request with an
    issue number. *)
Definition x_content : str := lit "x" ++ [nl] ++ lit "// TODO: a" ++ [nl].

Definition x_files : fs := {[ lit "f.go" := x_content ]}.

Definition x_todo : Todo :=
  {| Prefix := lit "// "; Suffix := lit "a"; ID := Some (lit "#7");
     Filename := lit "f.go"; Line := 2; Title := lit "a" |}.

Definition x_walked : Todo :=
  {| Prefix := lit "// "; Suffix := lit "a"; ID := None;
     Filename := lit "f.go"; Line := 2; Title := lit "a" |}.

Definition x_parsed : Todo :=
  {| Prefix := lit "x "; Suffix := lit "y"; ID := Some (lit "#1");
     Filename := []; Line := 0; Title := lit "y" |}.



Definition x_rename_fault : Faults := mkFaults None None None (Some EACCES).

Definition x_http (n : Z) (req : @Request Z) : @Response Z :=
  DecodedObject {[ lit "number" := JNum n ]}.

Definition x_reported : Todo :=
  {| Prefix := lit "// "; Suffix := lit "x"; ID := Some (lit "#42");
     Filename := lit "a.go"; Line := 1; Title := lit "x" |}.

(** The Todo the earlier [TodosOfFile] finds on the second line of
    [x_files]. *)
Definition x_legacy_todo : Legacy.Todo :=
  {| Legacy.Prefix := lit "// "; Legacy.Suffix := lit "a"; Legacy.Id := None;
     Legacy.Filename := lit "f.go"; Legacy.Line := 2 |}.

(** Two copies of [x_content]; reading [g.go] fails with [EIO] after its
    last byte, before the end of file. *)
Definition x_two_files : fs := {[ lit "f.go" := x_content; lit "g.go" := x_content ]}.

Definition x_fail_g (path : str) : option (nat * error) :=
  if decide (path = lit "g.go") then Some (length x_content, EIO) else None.

Definition x_legacy_todo_g : Legacy.Todo :=
  {| Legacy.Prefix := lit "// "; Legacy.Suffix := lit "a"; Legacy.Id := None;
     Legacy.Filename := lit "g.go"; Legacy.Line := 2 |}.

(** ** Settled on concrete inputs *)

Example find_unreported_ex :
  FindStringSubmatch unreportedTodoRe (lit "a TODO: b TODO: c")
  = Some [lit "a TODO: b TODO: c"; lit "a TODO: b "; lit "c"].
Proof. vm_compute. reflexivity. Qed.

Example find_reported_ex :
  FindStringSubmatch reportedTodoRe (lit "x TODO(#1): y): z")
  = Some [lit "x TODO(#1): y): z"; lit "x "; lit "#1): y"; lit "z"].
Proof. vm_compute. reflexivity. Qed.

Example find_newline_ex :
  FindStringSubmatch unreportedTodoRe (lit "a TODO: b" ++ [nl]) = None.
Proof. vm_compute. reflexivity. Qed.

(** ** Errors and the file system *)
Example scan_crlf_ex :
  scanLines (lit "a" ++ [cr; nl] ++ lit "b" ++ [cr]) None = ([lit "a"; lit "b"], None).
Proof. vm_compute. reflexivity. Qed.

Example scan_readerr_ex :
  scanLines (lit "a" ++ [nl] ++ lit "b") (Some EIO) = ([lit "a"; lit "b"], Some EIO).
Proof. vm_compute. reflexivity. Qed.


(** C8: [parseLine("  // TODO: fix this")] is the unreported Todo with
    prefix ["  // "] and suffix ["fix this"], and
    [parseLine("x := 1 // TODO(#42): refactor")] is the reported Todo with
    prefix ["x := 1 // "], suffix ["refactor"] and identifier ["#42"]. *)
Theorem parse_line_examples :
  forall T : str -> str,
  LineAsTodo T (lit "  // TODO: fix this")
  = Some {| Prefix := lit "  // "; Suffix := lit "fix this"; ID := None;
            Filename := []; Line := 0; Title := T (lit "fix this") |}
  /\ LineAsTodo T (lit "x := 1 // TODO(#42): refactor")
  = Some {| Prefix := lit "x := 1 // "; Suffix := lit "refactor";
            ID := Some (lit "#42"); Filename := []; Line := 0;
            Title := T (lit "refactor") |}.
Proof. intros T. split; vm_compute; reflexivity. Qed.

(** C2 counterexample: the reported Todo with empty prefix, identifier
    ["1"] and suffix ["TODO: x"] has canonical form ["TODO(1): TODO: x"],
    which [LineAsTodo] parses as the unreported Todo with prefix
    ["TODO(1): "] and suffix ["x"]: prefix, suffix and identifier all
    differ. *)
Lemma canonical_form_roundtrip_fails :
  LineAsTodo (fun s => s) (String c2_todo)
  = Some {| Prefix := lit "TODO(1): "; Suffix := lit "x"; ID := None;
            Filename := []; Line := 0; Title := lit "x" |}
  /\ ~ (exists t, LineAsTodo (fun s => s) (String c2_todo) = Some t
                  /\ Prefix t = Prefix c2_todo /\ Suffix t = Suffix c2_todo
                  /\ ID t = ID c2_todo).
Proof.
  assert (H : LineAsTodo (fun s => s) (String c2_todo)
              = Some {| Prefix := lit "TODO(1): "; Suffix := lit "x"; ID := None;
                        Filename := []; Line := 0; Title := lit "x" |})
    by (vm_compute; reflexivity).
  split; [exact H |].
  intros (t & Ht & _ & _ & Hid). rewrite H in Ht. injection Ht as <-.
  discriminate Hid.
Qed.

(** C3 counterexample: ["TODO(#1): a TODO: b"] matches the reported
    pattern (identifier ["#1"]), yet [LineAsTodo] returns an unreported
    Todo, because the unreported pattern is tried first and matches too. *)
Lemma reported_shape_does_not_win :
  FindStringSubmatch reportedTodoRe c3_line
  = Some [c3_line; []; lit "#1"; lit "a TODO: b"]
  /\ FindStringSubmatch unreportedTodoRe c3_line
  = Some [c3_line; lit "TODO(#1): a "; lit "b"]
  /\ LineAsTodo (fun s => s) c3_line
  = Some {| Prefix := lit "TODO(#1): a "; Suffix := lit "b"; ID := None;
            Filename := []; Line := 0; Title := lit "b" |}.
Proof. split; [|split]; vm_compute; reflexivity. Qed.

(** C5 counterexample: rewriting ["a\r\nb\r\n"] with the identity transform
    writes ["a\nb\n"]: the carriage returns are gone, so the output is
    neither the input nor the input with a newline added. *)
Lemma identity_rewrite_drops_cr :
  updateToFile c5_files no_faults c5_todo (lit "f.go.snitch") identityCallback
  = (<[lit "f.go.snitch" := lit "a" ++ [nl] ++ lit "b" ++ [nl]]> c5_files, None)
  /\ lit "a" ++ [nl] ++ lit "b" ++ [nl] <> c5_content
  /\ lit "a" ++ [nl] ++ lit "b" ++ [nl] <> c5_content ++ [nl].
Proof. split; [|split]; vm_compute; [reflexivity | discriminate | discriminate]. Qed.

(** C1: [Update] on a file whose second line is longer than
    [bufio.MaxScanTokenSize]: the scanner stops with [ErrTooLong], which
    nobody reads, [Update] reports success, and the renamed output holds
    the first line only; the long line and the line after it are lost. *)
Theorem update_truncates_on_scan_error :
  Update c1_files no_faults c1_todo
  = ({[ lit "main.go" := lit "// TODO(#1): fix" ++ [nl] ]}, None)
  /\ snd (scanLines (lit "// TODO: fix" ++ [nl] ++ longLine ++ [nl] ++ lit "b" ++ [nl]) None)
     = Some ErrTooLong.
Proof. split; vm_compute; reflexivity. Qed.

(** C6: [Remove] of line 1 of the four-line file ["a", "b", longLine, "c"]
    reports success and leaves the one-line file ["b"], not the three lines
    ["b", longLine, "c"]. *)
Theorem remove_truncates_on_scan_error :
  Remove c6_files no_faults c6_todo
  = ({[ lit "main.go" := lit "b" ++ [nl] ]}, None).
Proof. vm_compute. reflexivity. Qed.

(** C10: [Update] of a Todo at line 5 of the two-line file
    ["a", longLine] reports success, and the file keeps only ["a"]. *)
Theorem update_out_of_range_truncates :
  Update c10_files no_faults c10_todo
  = ({[ lit "main.go" := lit "a" ++ [nl] ]}, None)
  /\ Remove c10_files no_faults c10_todo
  = ({[ lit "main.go" := lit "a" ++ [nl] ]}, None).
Proof. split; vm_compute; reflexivity. Qed.

(** ** Lemmas on the matcher *)

Module RegexpFacts.

Lemma star_none_inv (s : str) : forall pos caps k,
  star pos s caps k = None ->
  forall p rest, s = p ++ rest -> nl ∉ p -> k (pos + length p) rest caps = None.
Proof.
  induction s as [|c s IH]; intros pos caps k Hs p rest Heq Hp; simpl in Hs.
  - symmetry in Heq. apply app_eq_nil in Heq as [-> ->]. by rewrite Nat.add_0_r.
  - destruct p as [|c' p]; simpl in Heq.
    + subst rest. rewrite Nat.add_0_r.
      destruct (ascii_dec c nl); [done|]. by destruct (star (S pos) s caps k).
    + injection Heq as <- Hs'. apply not_elem_of_cons in Hp as [Hc Hp].
      destruct (ascii_dec c nl) as [->|Hnl]; [done|].
      destruct (star (S pos) s caps k) eqn:E; [done|].
      replace (pos + length (c :: p)) with (S pos + length p) by (simpl; lia).
      eapply IH; eauto.
Qed.

Lemma star_none (s : str) pos caps k :
  (forall p rest, s = p ++ rest -> nl ∉ p -> k (pos + length p) rest caps = None) ->
  star pos s caps k = None.
Proof.
  revert pos. induction s as [|c s IH]; intros pos H; simpl.
  - specialize (H [] []). rewrite Nat.add_0_r in H. apply H; [done|apply not_elem_of_nil].
  - assert (H0 : k pos (c :: s) caps = None).
    { specialize (H [] (c :: s)). rewrite Nat.add_0_r in H. apply H; [done|].
      apply not_elem_of_nil. }
    destruct (ascii_dec c nl); [done|].
    rewrite IH; [done|].
    intros p rest -> Hp.
    replace (S pos + length p) with (pos + length (c :: p)) by (simpl; lia).
    apply H; [done|]. apply not_elem_of_cons; done.
Qed.

Lemma star_elim (s : str) : forall pos caps k r,
  star pos s caps k = Some r ->
  exists p rest, s = p ++ rest /\ (nl ∉ p) /\ k (pos + length p) rest caps = Some r /\
    (forall p' rest', s = p' ++ rest' -> nl ∉ p' -> length p < length p' ->
      k (pos + length p') rest' caps = None).
Proof.
  induction s as [|c s IH]; intros pos caps k r Hs; simpl in Hs.
  - exists [], []. rewrite Nat.add_0_r. split_and!; [done|apply not_elem_of_nil|done|].
    intros p' rest' Heq _ Hlt. symmetry in Heq.
    apply app_eq_nil in Heq as [-> _]. simpl in Hlt. lia.
  - destruct (ascii_dec c nl) as [->|Hnl].
    + exists [], (nl :: s). rewrite Nat.add_0_r.
      split_and!; [done|apply not_elem_of_nil|done|].
      intros [|c' p'] rest' Heq Hp' Hlt; simpl in *; [lia|].
      injection Heq as <- _. apply not_elem_of_cons in Hp' as [[] _]. done.
    + destruct (star (S pos) s caps k) as [r'|] eqn:E.
      * injection Hs as <-.
        destruct (IH _ _ _ _ E) as (p & rest & -> & Hp & Hk & Hmax).
        exists (c :: p), rest.
        replace (pos + length (c :: p)) with (S pos + length p) by (simpl; lia).
        split_and!; [done| |done|].
        { apply not_elem_of_cons; done. }
        intros [|c' p'] rest' Heq Hp' Hlt; simpl in *; [lia|].
        injection Heq as <- Heq. apply not_elem_of_cons in Hp' as [_ Hp'].
        replace (pos + S (length p')) with (S pos + length p') by lia.
        apply Hmax; [done|done|lia].
      * exists [], (c :: s). rewrite Nat.add_0_r.
        split_and!; [done|apply not_elem_of_nil|done|].
        intros [|c' p'] rest' Heq Hp' Hlt; simpl in *; [lia|].
        injection Heq as <- Heq. apply not_elem_of_cons in Hp' as [_ Hp'].
        replace (pos + S (length p')) with (S pos + length p') by lia.
        eapply star_none_inv; eauto.
Qed.

Lemma star_intro (s : str) pos caps k r p rest :
  s = p ++ rest -> nl ∉ p -> k (pos + length p) rest caps = Some r ->
  (forall p' rest', s = p' ++ rest' -> nl ∉ p' -> length p < length p' ->
     k (pos + length p') rest' caps = None) ->
  star pos s caps k = Some r.
Proof.
  intros Hs Hp Hk Hmax.
  destruct (star pos s caps k) as [r'|] eqn:E.
  - destruct (star_elim _ _ _ _ _ E) as (p0 & rest0 & Hs0 & Hp0 & Hk0 & Hmax0).
    destruct (Nat.lt_total (length p0) (length p)) as [Hlt|[Heq|Hlt]].
    + rewrite (Hmax0 p rest) in Hk; done.
    + rewrite Hs in Hs0. apply app_inj_1 in Hs0 as [-> ->]; [|done].
      congruence.
    + rewrite (Hmax p0 rest0) in Hk0; done.
  - rewrite (star_none_inv _ _ _ _ E p rest) in Hk; done.
Qed.

Lemma m_word_app (w : str) : forall pos s caps k,
  m (word w) pos (w ++ s) caps k = k (pos + length w) s caps.
Proof.
  induction w as [|c w IH]; intros pos s caps k; simpl.
  - by rewrite Nat.add_0_r.
  - destruct (ascii_dec c c) as [_|]; [|done].
    rewrite IH. f_equal. lia.
Qed.

Lemma m_word_elim (w : str) : forall pos s caps k r,
  m (word w) pos s caps k = Some r ->
  exists s', s = w ++ s' /\ k (pos + length w) s' caps = Some r.
Proof.
  induction w as [|c w IH]; intros pos s caps k r H; simpl in *.
  - exists s. by rewrite Nat.add_0_r.
  - destruct s as [|c' s]; [done|].
    destruct (ascii_dec c c') as [<-|]; [|done].
    destruct (IH _ _ _ _ _ H) as (s' & -> & Hk).
    exists s'. split; [done|]. rewrite <- Hk. f_equal. lia.
Qed.

(** A group [( .* )] followed by [$]: the rest of the line, if it has no
    newline. *)
Lemma star_end (s : str) pos caps (k : cont) :
  star pos s caps (fun pos' s' caps' =>
    m (Cat End Eps) pos' s' (caps' ++ [take (pos' - pos) s]) k)
  = if decide (nl ∈ s) then None else k (pos + length s) [] (caps ++ [s]).
Proof.
  destruct (decide (nl ∈ s)) as [Hin|Hnin].
  - apply star_none. intros p rest -> Hp. destruct rest as [|c rest]; [|done].
    rewrite app_nil_r in Hin. done.
  - destruct (k (pos + length s) [] (caps ++ [s])) as [r|] eqn:E.
    + apply (star_intro _ _ _ _ _ s []).
      * by rewrite app_nil_r.
      * done.
      * simpl. replace (pos + length s - pos) with (length s) by lia.
        by rewrite firstn_all.
      * intros p' rest' Heq _ Hlt. apply (f_equal length) in Heq.
        rewrite length_app in Heq. lia.
    + apply star_none. intros p rest -> Hp. destruct rest as [|c rest]; [|done].
      simpl. rewrite app_nil_r. replace (pos + length p - pos) with (length p) by lia.
      rewrite firstn_all. rewrite app_nil_r in E. done.
Qed.

Lemma search_begin (r : re) (s : str) : forall i, i <> 0 ->
  search (Cat Begin r) i s = None.
Proof.
  induction s as [|c s IH]; intros i Hi; simpl;
    (destruct (decide (i = 0)); [done|]); [done|].
  apply IH. lia.
Qed.

Lemma find_begin (r : re) (s : str) :
  FindStringSubmatch (Cat Begin r) s
  = m r 0 s [] (fun j _ caps => Some (take (j - 0) s :: caps)).
Proof.
  unfold FindStringSubmatch. destruct s as [|c s]; simpl.
  - by destruct (m r 0 [] [] _).
  - destruct (m r 0 (c :: s) [] _); [done|]. by apply search_begin.
Qed.

End RegexpFacts.

Module ShapesFacts.
Import RegexpFacts Shapes.

Lemma group_end (s : str) pos caps (k : cont) :
  m (Cat (Group AnyStar) (Cat End Eps)) pos s caps k
  = if decide (nl ∈ s) then None else k (pos + length s) [] (caps ++ [s]).
Proof. exact (star_end s pos caps k). Qed.

Section OneWord.
Variable W : str.

Local Abbreviation pat1 := (Shapes.pat1 W).
Local Abbreviation K1 := (Shapes.K1 W).

Lemma find_pat1 (line : str) :
  FindStringSubmatch pat1 line = star 0 line [] (K1 line).
Proof. unfold Shapes.pat1, seq. simpl foldr. rewrite find_begin. reflexivity. Qed.

Lemma K1_app (line p s : str) :
  line = p ++ W ++ s -> nl ∉ s ->
  K1 line (0 + length p) (W ++ s) [] = Some [line; p; s].
Proof.
  intros Hl Hs. unfold Shapes.K1. rewrite m_word_app, group_end.
  rewrite decide_False by done. unfold Shapes.k0. subst line. simpl.
  rewrite !Nat.sub_0_r, take_app_length, take_ge; [done|].
  rewrite !length_app. lia.
Qed.

Lemma K1_elim (line : str) j rest r :
  K1 line j rest [] = Some r -> exists s, rest = W ++ s /\ nl ∉ s.
Proof.
  unfold Shapes.K1. intros H. apply m_word_elim in H as (s & -> & H).
  rewrite group_end in H. exists s. split; [done|].
  destruct (decide (nl ∈ s)); done.
Qed.

Lemma find_pat1_some (line : str) g :
  FindStringSubmatch pat1 line = Some g ->
  exists p s, g = [line; p; s] /\ line = p ++ W ++ s /\ (nl ∉ p) /\ (nl ∉ s) /\
    (forall p' s', line = p' ++ W ++ s' -> nl ∉ p' -> nl ∉ s' ->
       length p' <= length p).
Proof.
  rewrite find_pat1. intros H.
  destruct (star_elim _ _ _ _ _ H) as (p & rest & Hl & Hp & Hk & Hmax).
  destruct (K1_elim _ _ _ _ Hk) as (s & -> & Hs).
  rewrite (K1_app line p s) in Hk by done. injection Hk as <-.
  exists p, s. split_and!; try done.
  intros p' s' Hl' Hp' Hs'.
  destruct (decide (length p' <= length p)) as [|Hlt]; [done|].
  specialize (Hmax p' (W ++ s') Hl' Hp' ltac:(lia)).
  rewrite (K1_app line p' s') in Hmax by done. done.
Qed.

Lemma find_pat1_intro (line p s : str) :
  line = p ++ W ++ s -> nl ∉ p -> nl ∉ s ->
  (forall p' s', line = p' ++ W ++ s' -> nl ∉ p' -> nl ∉ s' ->
     length p' <= length p) ->
  FindStringSubmatch pat1 line = Some [line; p; s].
Proof.
  intros Hl Hp Hs Hmax. rewrite find_pat1.
  apply (star_intro _ _ _ _ _ p (W ++ s)); [done|done| |].
  - by apply K1_app.
  - intros p' rest' Hl' Hp' Hlt.
    destruct (K1 line (0 + length p') rest' []) as [r|] eqn:E; [|done].
    destruct (K1_elim _ _ _ _ E) as (s' & -> & Hs').
    specialize (Hmax p' s' Hl' Hp' Hs'). lia.
Qed.

Lemma find_pat1_none (line : str) :
  (forall p s, line = p ++ W ++ s -> nl ∉ p -> nl ∉ s -> False) ->
  FindStringSubmatch pat1 line = None.
Proof.
  intros Hno. rewrite find_pat1. apply star_none.
  intros p rest Hl Hp.
  destruct (K1 line (0 + length p) rest []) as [r|] eqn:E; [|done].
  destruct (K1_elim _ _ _ _ E) as (s & -> & Hs).
  destruct (Hno p s Hl Hp Hs).
Qed.

End OneWord.
End ShapesFacts.


Module Unreported.
Import RegexpFacts Shapes ShapesFacts.

Lemma unreportedTodoRe_pat1 : unreportedTodoRe = pat1 (lit "TODO: ").
Proof. reflexivity. Qed.

Lemma nl_notin_todo_colon : nl ∉ lit "TODO: ".
Proof. apply (bool_decide_unpack _). vm_compute. reflexivity. Qed.

Lemma lineAsUnreportedTodo_spec (T : str -> str) (line : str) (t : Todo) :
  lineAsUnreportedTodo T line = Some t ->
  exists p s,
    t = {| Prefix := p; Suffix := s; ID := None; Filename := []; Line := 0;
           Title := T s |} /\
    line = p ++ lit "TODO: " ++ s /\ (nl ∉ p) /\ (nl ∉ s) /\
    (forall p' s', line = p' ++ lit "TODO: " ++ s' -> nl ∉ p' -> nl ∉ s' ->
       length p' <= length p).
Proof.
  unfold lineAsUnreportedTodo. rewrite unreportedTodoRe_pat1.
  destruct (FindStringSubmatch (pat1 (lit "TODO: ")) line) as [g|] eqn:E; [|done].
  intros Ht. injection Ht as <-.
  destruct (find_pat1_some _ _ _ E) as (p & s & -> & Hl & Hp & Hs & Hmax).
  exists p, s. simpl. split_and!; done.
Qed.

(** C9: on a line accepted by [^( .* )TODO: ( .* )$], [lineAsUnreportedTodo]
    splits at the last ["TODO: "]: [prefix ++ "TODO: " ++ suffix] is the
    line, and the suffix does not contain ["TODO: "]. *)
Theorem unreported_splits_at_last_marker (T : str -> str) (line : str) (t : Todo) :
  lineAsUnreportedTodo T line = Some t ->
  Prefix t ++ lit "TODO: " ++ Suffix t = line /\
  ~ contains (lit "TODO: ") (Suffix t).
Proof.
  intros Ht.
  destruct (lineAsUnreportedTodo_spec _ _ _ Ht) as (p & s & -> & Hl & Hp & Hs & Hmax).
  cbn [Prefix Suffix]. split; [done|].
  intros (a & b & ->).
  assert (Hlen := Hmax (p ++ lit "TODO: " ++ a) b).
  rewrite !length_app in Hlen.
  enough (length p + (length (lit "TODO: ") + length a) <= length p)
    by (assert (length (lit "TODO: ") = 6) by reflexivity; lia).
  apply Hlen.
  - rewrite Hl. by rewrite <- !app_assoc.
  - rewrite !not_elem_of_app in Hs |- *. tauto.
  - rewrite !not_elem_of_app in Hs. tauto.
Qed.

(** C7: for every line [s] matched by [^( .* )TODO: ( .* )$], parsing the
    canonical form of [parseLine(s)] gives [parseLine(s)] again. *)
Theorem parse_canonical_parse_stable (T : str -> str) (s : str) (g : list str) :
  FindStringSubmatch unreportedTodoRe s = Some g ->
  exists t, LineAsTodo T s = Some t /\ LineAsTodo T (String t) = Some t.
Proof.
  intros Hg.
  assert (Hu : exists t, lineAsUnreportedTodo T s = Some t).
  { unfold lineAsUnreportedTodo. rewrite Hg. eauto. }
  destruct Hu as [t Ht].
  exists t. unfold LineAsTodo at 1. rewrite Ht. split; [done|].
  destruct (lineAsUnreportedTodo_spec _ _ _ Ht) as (p & s' & Et & Hl & _).
  assert (Hs : String t = s) by (rewrite Et; simpl; by rewrite Hl).
  rewrite Hs. unfold LineAsTodo. by rewrite Ht.
Qed.

End Unreported.

Module Occurrence.

Lemma contains_spec (w l : str) : contains w l <-> containsb w l = true.
Proof.
  induction l as [|x l IH]; simpl; rewrite orb_true_iff, bool_decide_eq_true.
  - split.
    + intros (a & b & H). left. destruct a; [|discriminate].
      destruct w as [|c w]; [|discriminate]. exists []. done.
    + intros [[k Hk]|?]; [|done]. exists [], k. done.
  - split.
    + intros (a & b & H). destruct a as [|y a]; simpl in H.
      * left. exists b. done.
      * injection H as -> H. right. apply IH. exists a, b. done.
    + intros [[k Hk]|Hr].
      * exists [], k. done.
      * apply IH in Hr as (a & b & ->). exists (x :: a), b. done.
Qed.

Lemma occ_app (w u v a b : str) :
  u ++ w ++ v = a ++ b ->
  (exists v', a = u ++ w ++ v') \/ (exists u', b = u' ++ w ++ v) \/ straddle w a b.
Proof.
  intros H. apply app_eq_app in H as (k & [[-> ->]|[-> H]]).
  - right; left. exists k. done.
  - apply app_eq_app in H as (j & [[-> ->]|[-> ->]]).
    + destruct j as [|cj j].
      * left. exists []. by rewrite !app_nil_r.
      * destruct k as [|ck k].
        -- right; left. exists []. done.
        -- right; right. exists (ck :: k), (cj :: j), u, v. done.
    + left. exists j. done.
Qed.

Lemma no_straddle_head (w a b b' : str) (c : ascii) :
  b = c :: b' -> c ∉ tail w -> ~ straddle w a b.
Proof.
  intros -> Hc (w1 & w2 & a' & b'' & -> & Hw1 & Hw2 & _ & Hb).
  destruct w1 as [|x w1]; [done|]. destruct w2 as [|y w2]; [done|].
  simpl in Hb. injection Hb as <- _. apply Hc. simpl.
  apply elem_of_app. right. apply elem_of_cons. by left.
Qed.

Lemma no_straddle_last (w a b a'' : str) (c : ascii) :
  a = a'' ++ [c] -> c ∉ removelast w -> ~ straddle w a b.
Proof.
  intros -> Hc (w1 & w2 & a' & b' & -> & Hw1 & Hw2 & Ha & _).
  destruct (exists_last Hw1) as (w1i & c1 & ->).
  rewrite app_assoc in Ha. apply app_inj_tail in Ha as [_ <-].
  apply Hc. rewrite removelast_app by done.
  apply elem_of_app. left. apply elem_of_app. right. apply list_elem_of_singleton. done.
Qed.

Lemma app_longer (p p' x y : str) :
  p ++ x = p' ++ y -> length p < length p' ->
  exists t, p' = p ++ t /\ t <> [] /\ x = t ++ y.
Proof.
  intros H Hlt. apply app_eq_app in H as (k & [[-> ->]|[-> ->]]).
  - rewrite length_app in Hlt. lia.
  - exists k. split_and!; [done| |done].
    intros ->. rewrite app_nil_r in Hlt. lia.
Qed.

Lemma no_occ_short (w u v a : str) :
  a = u ++ w ++ v -> u <> [] -> length a <= length w -> False.
Proof.
  intros -> Hu Hlen. rewrite !length_app in Hlen.
  destruct u; [done|]. simpl in Hlen. lia.
Qed.

End Occurrence.

Module Shapes2Facts.
Import RegexpFacts Shapes ShapesFacts Shapes2.

Section TwoWords.
Variables W1 W2 : str.

Local Abbreviation pat2 := (Shapes2.pat2 W1 W2).
Local Abbreviation K2i := (Shapes2.K2i W2).
Local Abbreviation K2o := (Shapes2.K2o W1 W2).

Lemma find_pat2 (line : str) :
  FindStringSubmatch pat2 line = star 0 line [] (K2o line).
Proof. unfold Shapes2.pat2, seq. simpl foldr. rewrite find_begin. reflexivity. Qed.

Lemma K2i_app (line : str) pos (s id sf : str) caps :
  s = id ++ W2 ++ sf -> nl ∉ sf ->
  K2i line pos s (pos + length id) (W2 ++ sf) caps
  = Some (take (pos + length s) line :: (caps ++ [id]) ++ [sf]).
Proof.
  intros Hs Hsf. unfold Shapes2.K2i. rewrite m_word_app, group_end.
  rewrite decide_False by done. unfold Shapes.k0.
  replace (pos + length id - pos) with (length id) by lia.
  assert (take (length id) s = id) as -> by (subst s; apply take_app_length).
  do 3 f_equal. subst s. rewrite !length_app. lia.
Qed.

Lemma K2i_elim (line : str) pos (s : str) j rest caps r :
  K2i line pos s j rest caps = Some r -> exists sf, rest = W2 ++ sf /\ (nl ∉ sf).
Proof.
  unfold Shapes2.K2i. intros H. apply m_word_elim in H as (sf & -> & H).
  rewrite group_end in H. exists sf. split; [done|].
  destruct (decide (nl ∈ sf)); done.
Qed.

Lemma inner_intro (line : str) pos (s id sf : str) caps :
  s = id ++ W2 ++ sf -> nl ∉ id -> nl ∉ sf ->
  (forall id' sf', s = id' ++ W2 ++ sf' -> nl ∉ id' -> nl ∉ sf' ->
     length id' <= length id) ->
  star pos s caps (K2i line pos s)
  = Some (take (pos + length s) line :: (caps ++ [id]) ++ [sf]).
Proof.
  intros Hs Hid Hsf Hmax.
  apply (star_intro _ _ _ _ _ id (W2 ++ sf)); [done|done| |].
  - by apply K2i_app.
  - intros id' rest' Hs' Hid' Hlt.
    destruct (K2i line pos s (pos + length id') rest' caps) as [r|] eqn:E; [|done].
    destruct (K2i_elim _ _ _ _ _ _ _ E) as (sf' & -> & Hsf').
    specialize (Hmax id' sf' Hs' Hid' Hsf'). lia.
Qed.

Lemma inner_elim (line : str) pos (s : str) caps r :
  star pos s caps (K2i line pos s) = Some r ->
  exists id sf, s = id ++ W2 ++ sf /\ (nl ∉ id) /\ (nl ∉ sf).
Proof.
  intros H. destruct (star_elim _ _ _ _ _ H) as (id & rest & Hs & Hid & Hk & _).
  destruct (K2i_elim _ _ _ _ _ _ _ Hk) as (sf & -> & Hsf).
  exists id, sf. done.
Qed.

Lemma K2o_app (line p s id sf : str) :
  line = p ++ W1 ++ s -> s = id ++ W2 ++ sf -> nl ∉ id -> nl ∉ sf ->
  (forall id' sf', s = id' ++ W2 ++ sf' -> nl ∉ id' -> nl ∉ sf' ->
     length id' <= length id) ->
  K2o line (0 + length p) (W1 ++ s) [] = Some [line; p; id; sf].
Proof.
  intros Hl Hs Hid Hsf Hmax. unfold Shapes2.K2o. rewrite m_word_app.
  rewrite (inner_intro line _ s id sf) by done.
  rewrite Nat.sub_0_r. simpl. rewrite take_ge.
  - rewrite Hl, take_app_length. done.
  - rewrite Hl, !length_app. lia.
Qed.

Lemma K2o_elim (line : str) j rest r :
  K2o line j rest [] = Some r ->
  exists s id sf, rest = W1 ++ s /\ s = id ++ W2 ++ sf /\ (nl ∉ id) /\ (nl ∉ sf).
Proof.
  unfold Shapes2.K2o. intros H. apply m_word_elim in H as (s & -> & H).
  destruct (inner_elim _ _ _ _ _ H) as (id & sf & Hs & Hid & Hsf).
  exists s, id, sf. done.
Qed.

Lemma find_pat2_intro (line p id sf : str) :
  line = p ++ W1 ++ id ++ W2 ++ sf -> nl ∉ p -> nl ∉ id -> nl ∉ sf ->
  (forall p' id' sf', line = p' ++ W1 ++ id' ++ W2 ++ sf' ->
     nl ∉ p' -> nl ∉ id' -> nl ∉ sf' -> length p' <= length p) ->
  (forall id' sf', id ++ W2 ++ sf = id' ++ W2 ++ sf' -> nl ∉ id' -> nl ∉ sf' ->
     length id' <= length id) ->
  FindStringSubmatch pat2 line = Some [line; p; id; sf].
Proof.
  intros Hl Hp Hid Hsf Hmax1 Hmax2. rewrite find_pat2.
  apply (star_intro _ _ _ _ _ p (W1 ++ id ++ W2 ++ sf)); [done|done| |].
  - by apply (K2o_app _ _ _ id sf).
  - intros p' rest' Hl' Hp' Hlt.
    destruct (K2o line (0 + length p') rest' []) as [r|] eqn:E; [|done].
    destruct (K2o_elim _ _ _ _ E) as (s' & id' & sf' & -> & -> & Hid' & Hsf').
    specialize (Hmax1 p' id' sf' Hl' Hp' Hid' Hsf'). lia.
Qed.

End TwoWords.
End Shapes2Facts.

Module RoundTrip.
Import Shapes ShapesFacts Shapes2 Shapes2Facts Occurrence Unreported.

Ltac nin := apply (bool_decide_unpack _); vm_compute; reflexivity.

(** An occurrence starting after a nonempty [u] does not fit in [w]. *)
Ltac too_long H :=
  apply (f_equal length) in H; rewrite !length_app in H; simpl in H; lia.

Lemma reportedTodoRe_pat2 : reportedTodoRe = pat2 (lit "TODO(") (lit "): ").
Proof. reflexivity. Qed.

(** ["TODO: "] in a reported canonical form lies in one of its fields. *)
Lemma marker_in_reported_form (p id s u v : str) :
  u ++ lit "TODO: " ++ v = p ++ lit "TODO(" ++ id ++ lit "): " ++ s ->
  contains (lit "TODO: ") p \/ contains (lit "TODO: ") id \/
  contains (lit "TODO: ") s.
Proof.
  intros H. apply occ_app in H as [(v' & Ha)|[(u1 & Hb)|Hs]].
  - left. exists u, v'. done.
  - symmetry in Hb. apply occ_app in Hb as [(v' & Ha)|[(u2 & Hb)|Hs]].
    + too_long Ha.
    + symmetry in Hb. apply occ_app in Hb as [(v' & Ha)|[(u3 & Hb)|Hs]].
      * right; left. exists u2, v'. done.
      * symmetry in Hb. apply occ_app in Hb as [(v' & Ha)|[(u4 & Hb)|Hs]].
        -- too_long Ha.
        -- right; right. exists u4, v. done.
        -- exfalso. revert Hs. apply (no_straddle_last _ _ _ (lit "):") " "%char);
             [reflexivity | nin].
      * exfalso. revert Hs. apply (no_straddle_head _ _ _ (lit ": " ++ s) ")"%char);
          [reflexivity | nin].
    + exfalso. revert Hs. apply (no_straddle_last _ _ _ (lit "TODO") "("%char);
        [reflexivity | nin].
  - exfalso. revert Hs.
    apply (no_straddle_head _ _ _ (lit "ODO(" ++ id ++ lit "): " ++ s) "T"%char);
      [reflexivity | nin].
Qed.

Lemma unreported_prefix_maximal (p s p' s' : str) :
  p ++ lit "TODO: " ++ s = p' ++ lit "TODO: " ++ s' ->
  ~ contains (lit "TODO: ") s -> length p' <= length p.
Proof.
  intros H Hs. destruct (decide (length p' <= length p)) as [|Hlt]; [done|].
  exfalso. destruct (app_longer _ _ _ _ H ltac:(lia)) as (t & _ & Ht & Heq).
  symmetry in Heq. apply occ_app in Heq as [(v' & Ha)|[(u' & Hb)|Hst]].
  - destruct t; [done|]. too_long Ha.
  - apply Hs. exists u', s'. done.
  - revert Hst. apply (no_straddle_last _ _ _ (lit "TODO:") " "%char);
      [reflexivity | nin].
Qed.

Lemma reported_prefix_maximal (p id s p' id' s' : str) :
  p ++ lit "TODO(" ++ id ++ lit "): " ++ s
  = p' ++ lit "TODO(" ++ id' ++ lit "): " ++ s' ->
  ~ contains (lit "TODO(") id -> ~ contains (lit "): ") s ->
  length p' <= length p.
Proof.
  intros H Hid Hs. destruct (decide (length p' <= length p)) as [|Hlt]; [done|].
  exfalso. destruct (app_longer _ _ _ _ H ltac:(lia)) as (t & _ & Ht & Heq).
  symmetry in Heq. apply occ_app in Heq as [(v' & Ha)|[(u1 & Hb)|Hst]].
  - destruct t; [done|]. too_long Ha.
  - symmetry in Hb. apply occ_app in Hb as [(v' & Ha)|[(u2 & Hb)|Hst]].
    + apply Hid. exists u1, v'. done.
    + symmetry in Hb. apply occ_app in Hb as [(v' & Ha)|[(u3 & Hb)|Hst]].
      * too_long Ha.
      * apply Hs. exists (u3 ++ lit "TODO(" ++ id'), s'.
        rewrite Hb. by rewrite <- !app_assoc.
      * revert Hst. apply (no_straddle_last _ _ _ (lit "):") " "%char);
          [reflexivity | nin].
    + revert Hst. apply (no_straddle_head _ _ _ (lit ": " ++ s) ")"%char);
        [reflexivity | nin].
  - revert Hst. apply (no_straddle_last _ _ _ (lit "TODO") "("%char);
      [reflexivity | nin].
Qed.

Lemma reported_id_maximal (id s id' s' : str) :
  id ++ lit "): " ++ s = id' ++ lit "): " ++ s' ->
  ~ contains (lit "): ") s -> length id' <= length id.
Proof.
  intros H Hs. destruct (decide (length id' <= length id)) as [|Hlt]; [done|].
  exfalso. destruct (app_longer _ _ _ _ H ltac:(lia)) as (t & _ & Ht & Heq).
  symmetry in Heq. apply occ_app in Heq as [(v' & Ha)|[(u' & Hb)|Hst]].
  - destruct t; [done|]. too_long Ha.
  - apply Hs. exists u', s'. done.
  - revert Hst. apply (no_straddle_last _ _ _ (lit "):") " "%char);
      [reflexivity | nin].
Qed.

(** C2 (as amended): the canonical form of a Todo parses back to the same
    prefix, suffix and identifier when no field contains a newline and
    - for an unreported Todo: the suffix does not contain ["TODO: "];
    - for a reported Todo: no field contains ["TODO: "], the identifier
      does not contain ["TODO("] and the suffix does not contain ["): "]. *)
Theorem canonical_form_roundtrip (T : str -> str) (t : Todo) :
  nl ∉ Prefix t -> nl ∉ Suffix t ->
  match ID t with
  | None => ~ contains (lit "TODO: ") (Suffix t)
  | Some id =>
      (nl ∉ id) /\ ~ contains (lit "TODO: ") (Prefix t) /\
      ~ contains (lit "TODO: ") id /\ ~ contains (lit "TODO: ") (Suffix t) /\
      ~ contains (lit "TODO(") id /\ ~ contains (lit "): ") (Suffix t)
  end ->
  exists t', LineAsTodo T (String t) = Some t' /\ Prefix t' = Prefix t /\
             Suffix t' = Suffix t /\ ID t' = ID t.
Proof.
  destruct t as [p s [id|] f l ti]; cbn [Prefix Suffix ID String];
    intros Hp Hs Hc.
  - destruct Hc as (Hid & Hcp & Hcid & Hcs & Hcid' & Hcs').
    assert (Hu : lineAsUnreportedTodo T (p ++ lit "TODO(" ++ id ++ lit "): " ++ s) = None).
    { unfold lineAsUnreportedTodo. rewrite unreportedTodoRe_pat1, find_pat1_none; [done|].
      intros p' s' Heq _ _. symmetry in Heq.
      apply marker_in_reported_form in Heq as [|[|]]; auto. }
    unfold LineAsTodo. rewrite Hu. unfold lineAsReportedTodo.
    rewrite reportedTodoRe_pat2.
    rewrite (find_pat2_intro _ _ _ p id s); [|done..| |].
    + eexists. split; [reflexivity|]. done.
    + intros p' id' s' Heq _ _ _. eapply reported_prefix_maximal; [|done|done].
      exact Heq.
    + intros id' s' Heq _ _. eapply reported_id_maximal; [exact Heq|done].
  - unfold LineAsTodo, lineAsUnreportedTodo. rewrite unreportedTodoRe_pat1.
    rewrite (find_pat1_intro _ _ p s); [|done..|].
    + eexists. split; [reflexivity|]. done.
    + intros p' s' Heq _ _. eapply unreported_prefix_maximal; [exact Heq|done].
Qed.

End RoundTrip.

Module Precedence.
Import RegexpFacts Shapes ShapesFacts Shapes2 Shapes2Facts Occurrence Unreported RoundTrip.

Lemma find_pat1_exists (W line p s : str) :
  line = p ++ W ++ s -> nl ∉ p -> nl ∉ s ->
  exists g, FindStringSubmatch (pat1 W) line = Some g.
Proof.
  intros Hl Hp Hs. rewrite find_pat1.
  destruct (star 0 line [] (K1 W line)) as [g|] eqn:E; [by eexists|].
  exfalso. pose proof (star_none_inv _ _ _ _ E p (W ++ s) Hl Hp) as Hk.
  rewrite (K1_app W line p s) in Hk by done. done.
Qed.

Lemma find_pat2_nonl (W1 W2 line : str) g :
  FindStringSubmatch (pat2 W1 W2) line = Some g -> nl ∉ W1 -> nl ∉ W2 ->
  nl ∉ line.
Proof.
  rewrite find_pat2. intros H H1 H2.
  destruct (star_elim _ _ _ _ _ H) as (p & rest & -> & Hp & Hk & _).
  destruct (K2o_elim _ _ _ _ _ _ Hk) as (s & id & sf & -> & -> & Hid & Hsf).
  rewrite !not_elem_of_app. tauto.
Qed.

(** C3 (as amended): [LineAsTodo] tries the unreported shape first.  A line
    matching the reported pattern is parsed as the reported Todo of that
    pattern's groups exactly when it does not contain ["TODO: "]; when it
    does, it is parsed as an unreported Todo (no identifier), the one
    [lineAsUnreportedTodo] gives. *)
Theorem unreported_shape_takes_precedence (T : str -> str) (line : str) (g : list str) :
  FindStringSubmatch reportedTodoRe line = Some g ->
  (~ contains (lit "TODO: ") line ->
   LineAsTodo T line
   = Some {| Prefix := nth 1 g []; Suffix := nth 3 g []; ID := Some (nth 2 g []);
             Filename := []; Line := 0; Title := T (nth 3 g []) |}) /\
  (contains (lit "TODO: ") line ->
   exists t, LineAsTodo T line = Some t /\ ID t = None /\
             lineAsUnreportedTodo T line = Some t).
Proof.
  intros Hg. split.
  - intros Hc. unfold LineAsTodo, lineAsUnreportedTodo.
    rewrite unreportedTodoRe_pat1, find_pat1_none.
    + unfold lineAsReportedTodo. by rewrite Hg.
    + intros p s Hl _ _. apply Hc. exists p, s. done.
  - intros (a & b & Hl).
    rewrite reportedTodoRe_pat2 in Hg.
    apply find_pat2_nonl in Hg; [|nin|nin].
    rewrite Hl, !not_elem_of_app in Hg.
    destruct (find_pat1_exists (lit "TODO: ") line a b) as (g' & Hg'); [done|tauto|tauto|].
    assert (Hu : lineAsUnreportedTodo T line
                 = Some {| Prefix := nth 1 g' []; Suffix := nth 2 g' []; ID := None;
                           Filename := []; Line := 0; Title := T (nth 2 g' []) |}).
    { unfold lineAsUnreportedTodo. by rewrite unreportedTodoRe_pat1, Hg'. }
    exists {| Prefix := nth 1 g' []; Suffix := nth 2 g' []; ID := None;
              Filename := []; Line := 0; Title := T (nth 2 g' []) |}.
    split_and!; [|reflexivity|exact Hu].
    unfold LineAsTodo. by rewrite Hu.
Qed.

End Precedence.

Module WalkFacts.

Lemma walkLines_error (T : str -> str) {V : Type} (visit : V -> Todo -> V * option error)
    (path : str) (texts : list str) : forall line v v' vs e,
  walkLines T visit path line texts v = (v', vs, Some e) ->
  exists vs0 todo v0, vs = vs0 ++ [todo] /\ visit v0 todo = (v', Some e).
Proof.
  induction texts as [|text texts IH]; intros line v v' vs e H; simpl in H; [done|].
  destruct (LineAsTodo T text) as [todo|]; [|eapply IH; exact H].
  set (todo' := {| Prefix := _ |}) in H.
  destruct (visit v todo') as [v1 [e1|]] eqn:Ev.
  - injection H as <- <- <-. exists [], todo', v. done.
  - destruct (walkLines T visit path (line + 1)%Z texts v1) as [[v2 vs2] err] eqn:Ew.
    injection H as <- <- ->.
    destruct (IH _ _ _ _ _ Ew) as (vs0 & todo0 & v0 & -> & Hv).
    exists (todo' :: vs0), todo0, v0. done.
Qed.

Lemma walkFiles_app_error (T : str -> str) {V : Type} (visit : V -> Todo -> V * option error)
    (open : str -> openResult) (pre : list str) : forall f post v v1 vs1 v2 vs2 e,
  walkFiles T visit open pre v = (v1, vs1, None) ->
  WalkTodosOfFile T visit open f v1 = (v2, vs2, Some e) ->
  walkFiles T visit open (pre ++ f :: post) v = (v2, vs1 ++ vs2, Some e).
Proof.
  induction pre as [|path pre IH]; intros f post v v1 vs1 v2 vs2 e Hpre Hf; simpl in *.
  - injection Hpre as <- <-. by rewrite Hf.
  - destruct (WalkTodosOfFile T visit open path v) as [[va vsa] [ea|]]; [done|].
    destruct (walkFiles T visit open pre va) as [[vb vsb] eb] eqn:Eb.
    injection Hpre as <- <- ->.
    rewrite (IH _ _ _ _ _ _ _ _ Eb Hf). by rewrite app_assoc.
Qed.

(** C4: errors abort the walk and reach the caller unchanged.  A failing
    [git ls-files] is returned as it is.  When the files before [f] are
    walked without error and [f] fails with [e], the directory walk returns
    [e] itself, after visiting exactly the Todos of the earlier files and
    those of [f] up to the failure, whatever files follow; and [e] is
    [f]'s open error, the error the visitor returned on the last visited
    Todo, or the read error that ended [f]. *)
Theorem walk_aborts_on_first_error (T : str -> str) {V : Type}
    (visit : V -> Todo -> V * option error) (open : str -> openResult)
    (pre : list str) (f : str) (post : list str) (v v1 v2 : V)
    (vs1 vs2 : list Todo) (e : error) :
  walkFiles T visit open pre v = (v1, vs1, None) ->
  WalkTodosOfFile T visit open f v1 = (v2, vs2, Some e) ->
  (forall e', WalkTodosOfDir T visit (LsErr e') open v = (v, [], Some e')) /\
  WalkTodosOfDir T visit (LsOk (pre ++ f :: post)) open v = (v2, vs1 ++ vs2, Some e) /\
  ((open f = OpenErr e /\ vs2 = []) \/
   (exists texts, open f = Opened texts e /\ e <> EOF /\
      walkLines T visit f 1 texts v1 = (v2, vs2, None)) \/
   (exists texts final vs0 todo v0, open f = Opened texts final /\
      vs2 = vs0 ++ [todo] /\ visit v0 todo = (v2, Some e))).
Proof.
  intros Hpre Hf. split_and!; [done| by eapply walkFiles_app_error |].
  unfold WalkTodosOfFile in Hf.
  destruct (open f) as [e0|texts final] eqn:Eo.
  - injection Hf as <- <- <-. left. done.
  - destruct (walkLines T visit f 1 texts v1) as [[va vsa] [ea|]] eqn:Ew.
    + injection Hf as <- <- <-.
      destruct (walkLines_error _ _ _ _ _ _ _ _ _ Ew) as (vs0 & todo & v0 & -> & Hv).
      right; right. exists texts, final, vs0, todo, v0. done.
    + destruct final; try discriminate Hf; injection Hf as <- <- <-;
        right; left; exists texts; done.
Qed.

End WalkFacts.

Module RewriteFacts.

Lemma emitLines_identity (ls : list str) : forall n,
  emitLines identityCallback n ls = joinLines ls.
Proof.
  induction ls as [|l ls IH]; intros n; simpl; [done|].
  rewrite IH. by rewrite <- app_assoc.
Qed.

Lemma dropCR_id (l : str) : last l <> Some cr -> dropCR l = l.
Proof.
  unfold dropCR. destruct (last l) as [c|]; [|done].
  destruct (ascii_dec c cr) as [->|]; done.
Qed.

Lemma withFinalNewline_nl (x d : str) :
  withFinalNewline (x ++ nl :: d) = x ++ nl :: withFinalNewline d.
Proof.
  destruct d as [|z d] using rev_ind.
  - unfold withFinalNewline. simpl. rewrite last_snoc.
    destruct (ascii_dec nl nl); done.
  - unfold withFinalNewline.
    replace (x ++ nl :: d ++ [z]) with ((x ++ nl :: d) ++ [z])
      by (by rewrite <- app_assoc).
    rewrite !last_snoc. destruct (ascii_dec z nl); simpl;
      by rewrite <- ?app_assoc.
Qed.

Lemma last_rev_cons (x : ascii) (l : str) : last (rev (x :: l)) = Some x.
Proof. simpl. apply last_snoc. Qed.

Lemma scan_go_identity (data : str) : forall rcur toks,
  nl ∉ rcur ->
  scan_go rcur data None = (toks, None) ->
  ~ contains [cr; nl] (rev rcur ++ data) ->
  last (rev rcur ++ data) <> Some cr ->
  joinLines toks = withFinalNewline (rev rcur ++ data).
Proof.
  induction data as [|c data IH]; intros rcur toks Hr Hs Hc Hl; simpl in Hs.
  - destruct rcur as [|x rcur'].
    + injection Hs as <-. done.
    + destruct (decide _); [done|]. injection Hs as <-.
      rewrite app_nil_r in Hl |- *. rewrite dropCR_id by done.
      unfold joinLines; simpl foldr. rewrite ?app_nil_r. unfold withFinalNewline.
      rewrite last_rev_cons. destruct (ascii_dec x nl) as [->|]; [|done].
      exfalso. apply Hr. apply elem_of_cons. by left.
  - assert (Hrev : rev (c :: rcur) ++ data = rev rcur ++ c :: data)
      by (simpl; by rewrite <- app_assoc).
    destruct (ascii_dec c nl) as [->|Hcn].
    + destruct (decide _); [done|].
      destruct (scan_go [] data None) as [toks' err'] eqn:E.
      injection Hs as <- ->.
      rewrite withFinalNewline_nl.
      assert (Hd : dropCR (rev rcur) = rev rcur).
      { apply dropCR_id. intros Hlast. apply last_Some in Hlast as [r' Hr'].
        apply Hc. exists r', data. rewrite Hr'. by rewrite <- app_assoc. }
      unfold joinLines; simpl foldr; fold (joinLines toks').
      rewrite Hd. f_equal. simpl. f_equal.
      pose proof (IH [] toks') as IH'. simpl in IH'.
      apply IH'; [apply not_elem_of_nil|done| |].
      * intros [a [b ->]]. apply Hc. exists (rev rcur ++ nl :: a), b.
        by rewrite <- app_assoc.
      * intros Hld. apply Hl. rewrite last_app_cons, last_cons, Hld. done.
    + rewrite <- Hrev. apply (IH (c :: rcur) toks).
      * apply not_elem_of_cons. split; [congruence|done].
      * done.
      * by rewrite Hrev.
      * by rewrite Hrev.
Qed.

(** C5 (amended): with no I/O fault, when the scanner reaches the end of
    the file without error and the file has no carriage return before a
    newline and none at its very end, the identity rewrite writes the input
    back unchanged except that a final newline is added when missing. *)
Theorem identity_rewrite_normalizes_final_newline (files : fs) (todo : Todo)
    (out content : str) :
  files !! Filename todo = Some content ->
  snd (scanLines content None) = None ->
  ~ contains [cr; nl] content ->
  last content <> Some cr ->
  updateToFile files no_faults todo out identityCallback
    = (<[out := withFinalNewline content]> files, None).
Proof.
  intros Hf Hs Hc Hl. unfold updateToFile. rewrite Hf. simpl.
  destruct (scanLines content None) as [lines err] eqn:E.
  simpl in Hs. subst err. rewrite emitLines_identity.
  do 2 f_equal.
  pose proof (scan_go_identity content [] lines) as H. simpl in H.
  apply H; [apply not_elem_of_nil|exact E|exact Hc|exact Hl].
Qed.

End RewriteFacts.

Module ParseFacts.
Import RegexpFacts Shapes ShapesFacts Shapes2 Shapes2Facts Occurrence Unreported
  RoundTrip Precedence.

Lemma inner_exists (W2 line : str) pos (s id sf : str) caps :
  s = id ++ W2 ++ sf -> nl ∉ id -> nl ∉ sf ->
  exists r, star pos s caps (K2i W2 line pos s) = Some r.
Proof.
  intros Hs Hid Hsf.
  destruct (star pos s caps (K2i W2 line pos s)) as [r|] eqn:E; [by eexists|].
  exfalso. pose proof (star_none_inv _ _ _ _ E id (W2 ++ sf) Hs Hid) as Hk.
  rewrite (K2i_app W2 line pos s id sf caps) in Hk by done. done.
Qed.

Lemma inner_some (W2 line : str) pos (s : str) caps r :
  star pos s caps (K2i W2 line pos s) = Some r ->
  exists id sf, s = id ++ W2 ++ sf /\ (nl ∉ id) /\ (nl ∉ sf) /\
    r = take (pos + length s) line :: (caps ++ [id]) ++ [sf] /\
    (forall id' sf', s = id' ++ W2 ++ sf' -> nl ∉ id' -> nl ∉ sf' ->
       length id' <= length id).
Proof.
  intros H. destruct (star_elim _ _ _ _ _ H) as (id & rest & Hs & Hid & Hk & Hmax).
  destruct (K2i_elim _ _ _ _ _ _ _ _ Hk) as (sf & -> & Hsf).
  rewrite (K2i_app W2 line pos s id sf caps) in Hk by done. injection Hk as <-.
  exists id, sf. split_and!; try done.
  intros id' sf' Hs' Hid' Hsf'.
  destruct (decide (length id' <= length id)) as [|Hlt]; [done|].
  specialize (Hmax id' (W2 ++ sf') Hs' Hid' ltac:(lia)).
  rewrite (K2i_app W2 line pos s id' sf' caps) in Hmax by done. done.
Qed.

Lemma find_pat2_some (W1 W2 line : str) g :
  FindStringSubmatch (pat2 W1 W2) line = Some g ->
  exists p id sf, g = [line; p; id; sf] /\ line = p ++ W1 ++ id ++ W2 ++ sf /\
    (nl ∉ p) /\ (nl ∉ id) /\ (nl ∉ sf) /\
    (forall p' id' sf', line = p' ++ W1 ++ id' ++ W2 ++ sf' ->
       nl ∉ p' -> nl ∉ id' -> nl ∉ sf' -> length p' <= length p) /\
    (forall id' sf', id ++ W2 ++ sf = id' ++ W2 ++ sf' -> nl ∉ id' -> nl ∉ sf' ->
       length id' <= length id).
Proof.
  rewrite find_pat2. intros H.
  destruct (star_elim _ _ _ _ _ H) as (p & rest & Hl & Hp & Hk & Hmax).
  unfold Shapes2.K2o in Hk. apply m_word_elim in Hk as (s & -> & Hk).
  destruct (inner_some _ _ _ _ _ _ Hk) as (id & sf & -> & Hid & Hsf & -> & Hmax2).
  exists p, id, sf. split_and!; try done.
  - f_equal.
    + apply take_ge. rewrite Hl, !length_app. lia.
    + simpl. rewrite Nat.sub_0_r. f_equal. rewrite Hl. apply take_app_length.
  - intros p' id' sf' Hl' Hp' Hid' Hsf'.
    destruct (decide (length p' <= length p)) as [|Hlt]; [done|].
    specialize (Hmax p' (W1 ++ id' ++ W2 ++ sf') Hl' Hp' ltac:(lia)).
    unfold Shapes2.K2o in Hmax. rewrite m_word_app in Hmax. cbv beta in Hmax.
    match type of Hmax with
    | star ?pos ?s ?caps _ = None =>
        destruct (inner_exists W2 line pos s id' sf' caps) as [r Hr]; [done..|]
    end.
    congruence.
Qed.

Lemma find_pat2_exists (W1 W2 line p id sf : str) :
  line = p ++ W1 ++ id ++ W2 ++ sf -> nl ∉ p -> nl ∉ id -> nl ∉ sf ->
  exists g, FindStringSubmatch (pat2 W1 W2) line = Some g.
Proof.
  intros Hl Hp Hid Hsf. rewrite find_pat2.
  destruct (star 0 line [] (K2o W1 W2 line)) as [g|] eqn:E; [by eexists|].
  exfalso. pose proof (star_none_inv _ _ _ _ E p (W1 ++ id ++ W2 ++ sf) Hl Hp) as Hk.
  unfold Shapes2.K2o in Hk. rewrite m_word_app in Hk. cbv beta in Hk.
  match type of Hk with
  | star ?pos ?s ?caps _ = None =>
      destruct (inner_exists W2 line pos s id sf caps) as [r Hr]; [done..|]
  end.
  congruence.
Qed.

Lemma unreported_accepts (T : str -> str) (line : str) :
  is_Some (lineAsUnreportedTodo T line) <->
  (nl ∉ line) /\ contains (lit "TODO: ") line.
Proof.
  split.
  - intros [t Ht].
    destruct (lineAsUnreportedTodo_spec _ _ _ Ht) as (p & s & _ & -> & Hp & Hs & _).
    split; [|by exists p, s].
    rewrite !not_elem_of_app. split_and!; [done|apply nl_notin_todo_colon|done].
  - intros [Hn (a & b & ->)]. rewrite !not_elem_of_app in Hn.
    destruct (find_pat1_exists (lit "TODO: ") (a ++ lit "TODO: " ++ b) a b)
      as [g Hg]; [done|tauto|tauto|].
    unfold lineAsUnreportedTodo. rewrite unreportedTodoRe_pat1, Hg. by eexists.
Qed.

Lemma reported_accepts (T : str -> str) (line : str) :
  is_Some (lineAsReportedTodo T line) <->
  (nl ∉ line) /\ exists p id sf, line = p ++ lit "TODO(" ++ id ++ lit "): " ++ sf.
Proof.
  unfold lineAsReportedTodo. rewrite reportedTodoRe_pat2. split.
  - destruct (FindStringSubmatch (pat2 (lit "TODO(") (lit "): ")) line) as [g|] eqn:E;
      intros [t Ht]; [|done].
    destruct (find_pat2_some _ _ _ _ E) as (p & id & sf & _ & Hl & Hp & Hid & Hsf & _).
    split; [|by exists p, id, sf].
    rewrite Hl, !not_elem_of_app. split_and!; try done; nin.
  - intros [Hn (p & id & sf & Hl)]. assert (Hn' := Hn).
    rewrite Hl, !not_elem_of_app in Hn'.
    destruct (find_pat2_exists _ _ _ p id sf Hl) as [g Hg]; try tauto.
    rewrite Hg. by eexists.
Qed.

Lemma LineAsTodo_String_eq (T : str -> str) (line : str) (t : Todo) :
  LineAsTodo T line = Some t -> String t = line.
Proof.
  unfold LineAsTodo. destruct (lineAsUnreportedTodo T line) as [t0|] eqn:E.
  - intros [= <-].
    destruct (lineAsUnreportedTodo_spec _ _ _ E) as (p & s & -> & Hl & _).
    unfold String. cbn [ID Prefix Suffix]. symmetry. exact Hl.
  - unfold lineAsReportedTodo. rewrite reportedTodoRe_pat2.
    destruct (FindStringSubmatch (pat2 (lit "TODO(") (lit "): ")) line) as [g|] eqn:E2;
      [|done].
    intros [= <-].
    destruct (find_pat2_some _ _ _ _ E2) as (p & id & sf & -> & Hl & _).
    unfold String. cbn [ID Prefix Suffix nth]. symmetry. exact Hl.
Qed.

(** X1: [LineAsTodo] accepts a line exactly when it has no newline and
    contains ["TODO: "], or contains ["TODO("] followed later by ["): "]. *)
Theorem LineAsTodo_accepts_iff (T : str -> str) (line : str) :
  is_Some (LineAsTodo T line) <->
  (nl ∉ line) /\
  (contains (lit "TODO: ") line \/
   exists p id sf, line = p ++ lit "TODO(" ++ id ++ lit "): " ++ sf).
Proof.
  pose proof (unreported_accepts T line) as Hu.
  pose proof (reported_accepts T line) as Hr.
  unfold LineAsTodo. destruct (lineAsUnreportedTodo T line) as [t|] eqn:E.
  - split; [|by eexists]. intros _. destruct Hu as [Hu _].
    specialize (Hu ltac:(by eexists)). tauto.
  - split.
    + intros Hs. apply Hr in Hs. tauto.
    + intros [Hn [Hc|Hp]].
      * exfalso. destruct Hu as [_ Hu]. destruct (Hu (conj Hn Hc)) as [? ?]. done.
      * apply Hr. tauto.
Qed.

(** X2: [lineAsReportedTodo] splits at the last ["TODO("] that a later
    ["): "] follows and then at the last ["): "]: the identifier does not
    contain ["TODO("] and the suffix does not contain ["): "]. *)
Theorem reported_splits_at_last_markers (T : str -> str) (line : str) (t : Todo) :
  lineAsReportedTodo T line = Some t ->
  exists id, ID t = Some id /\
    Prefix t ++ lit "TODO(" ++ id ++ lit "): " ++ Suffix t = line /\
    ~ contains (lit "TODO(") id /\ ~ contains (lit "): ") (Suffix t).
Proof.
  unfold lineAsReportedTodo. rewrite reportedTodoRe_pat2.
  destruct (FindStringSubmatch (pat2 (lit "TODO(") (lit "): ")) line) as [g|] eqn:E;
    [|done].
  intros [= <-].
  destruct (find_pat2_some _ _ _ _ E)
    as (p & id & sf & -> & Hl & Hp & Hid & Hsf & Hmax1 & Hmax2).
  exists id. cbn [ID Prefix Suffix nth]. split_and!; [done|by symmetry| |].
  - intros (a & b & ->). rewrite !not_elem_of_app in Hid.
    assert (Hlen : length (p ++ lit "TODO(" ++ a) <= length p).
    { apply (Hmax1 _ b sf).
      - rewrite Hl. by rewrite <- !app_assoc.
      - rewrite !not_elem_of_app. split_and!; try tauto; nin.
      - tauto.
      - done. }
    assert (length (lit "TODO(") = 5) by reflexivity.
    rewrite !length_app in Hlen. lia.
  - intros (a & b & ->). rewrite !not_elem_of_app in Hsf.
    assert (Hlen : length (id ++ lit "): " ++ a) <= length id).
    { apply (Hmax2 _ b).
      - by rewrite <- !app_assoc.
      - rewrite !not_elem_of_app. split_and!; try tauto; nin.
      - tauto. }
    assert (length (lit "): ") = 3) by reflexivity.
    rewrite !length_app in Hlen. lia.
Qed.

(** X3: the canonical form of a parsed Todo is the line it was parsed
    from. *)
Theorem parsed_todo_prints_as_line (T : str -> str) (line : str) (t : Todo) :
  LineAsTodo T line = Some t -> String t = line.
Proof. apply LineAsTodo_String_eq. Qed.

End ParseFacts.

Module RewriteMore.

Lemma snitch_name_ne (f : str) : f <> f ++ lit ".snitch".
Proof.
  intros H. apply (f_equal length) in H. rewrite length_app in H.
  assert (length (lit ".snitch") = 7) by reflexivity. lia.
Qed.

Lemma updateInPlace_ok (files : fs) (ft : Faults) (todo : Todo)
    (cb : Z -> str -> str * bool) (content : str) :
  files !! Filename todo = Some content ->
  create_fault ft = None -> rename_fault ft = None ->
  updateInPlace files ft todo cb
  = (<[Filename todo := onDisk (disk_space ft)
         (emitLines cb 1 (fst (scanLines (fst (reader content (read_fault ft)))
                                         (snd (reader content (read_fault ft))))))]>
       (delete (Filename todo ++ lit ".snitch") files), None).
Proof.
  intros Hf Hc Hr. unfold updateInPlace, updateToFile. rewrite Hf, Hc.
  destruct (reader content (read_fault ft)) as [data rerr]. cbn [fst snd].
  destruct (scanLines data rerr) as [lines e']. cbn [fst]. rewrite Hr.
  unfold rename. rewrite lookup_insert_eq. by rewrite delete_insert_eq.
Qed.

Lemma emit_replace (L : Z) (rep : str) (lines : list str) : forall n0,
  emitLines (fun k line => if Z.eqb k L then (rep, false) else (line, false)) n0 lines
  = joinLines (if decide (n0 <= L)%Z then <[Z.to_nat (L - n0) := rep]> lines else lines).
Proof.
  unfold joinLines.
  induction lines as [|l lines IH]; intros n0; simpl.
  - by destruct (decide _).
  - destruct (Z.eqb_spec n0 L) as [->|Hne]; simpl; rewrite IH.
    + rewrite decide_False by lia. rewrite decide_True by lia.
      rewrite Z.sub_diag. simpl. by rewrite <- app_assoc.
    + destruct (decide (n0 <= L)%Z).
      * rewrite decide_True by lia.
        replace (Z.to_nat (L - n0)) with (S (Z.to_nat (L - (n0 + 1)))) by lia.
        simpl. by rewrite <- app_assoc.
      * rewrite decide_False by lia. simpl. by rewrite <- app_assoc.
Qed.

Lemma emit_delete (L : Z) (lines : list str) : forall n0,
  emitLines (fun k line => if Z.eqb k L then ([], true) else (line, false)) n0 lines
  = joinLines (if decide (n0 <= L)%Z then delete (Z.to_nat (L - n0)) lines else lines).
Proof.
  unfold joinLines.
  induction lines as [|l lines IH]; intros n0; simpl.
  - by destruct (decide _).
  - destruct (Z.eqb_spec n0 L) as [->|Hne]; simpl; rewrite IH.
    + rewrite decide_False by lia. rewrite decide_True by lia.
      rewrite Z.sub_diag. done.
    + destruct (decide (n0 <= L)%Z).
      * rewrite decide_True by lia.
        replace (Z.to_nat (L - n0)) with (S (Z.to_nat (L - (n0 + 1)))) by lia.
        simpl. by rewrite <- app_assoc.
      * rewrite decide_False by lia. simpl. by rewrite <- app_assoc.
Qed.

Lemma Update_replace (files : fs) (todo : Todo) (content : str) :
  files !! Filename todo = Some content -> (1 <= Line todo)%Z ->
  Update files no_faults todo
  = (<[Filename todo :=
         joinLines (<[Z.to_nat (Line todo - 1) := String todo]> (fst (scanLines content None)))]>
       (delete (Filename todo ++ lit ".snitch") files), None).
Proof.
  intros Hf Hl. unfold Update. rewrite (updateInPlace_ok _ _ _ _ content) by done.
  cbn [no_faults read_fault disk_space reader onDisk fst snd].
  rewrite emit_replace, decide_True by lia. done.
Qed.

(** X4: when [updateInPlace] fails, every file other than the temporary
    [<file>.snitch] is as it was; in particular the file of the Todo is
    untouched. *)
Theorem updateInPlace_error_keeps_files (files files' : fs) (ft : Faults) (todo : Todo)
    (cb : Z -> str -> str * bool) (e : error) :
  updateInPlace files ft todo cb = (files', Some e) ->
  (forall k, k <> Filename todo ++ lit ".snitch" -> files' !! k = files !! k) /\
  files' !! Filename todo = files !! Filename todo.
Proof.
  intros H.
  assert (Hk : forall k, k <> Filename todo ++ lit ".snitch" -> files' !! k = files !! k).
  { intros k Hk. revert H. unfold updateInPlace, updateToFile.
    destruct (files !! Filename todo) as [content|]; [|by intros [= <- _]].
    destruct (create_fault ft); [by intros [= <- _]|].
    destruct (reader content (read_fault ft)) as [data rerr].
    destruct (scanLines data rerr) as [lines e'].
    destruct (rename_fault ft); [|done].
    intros [= <- _]. rewrite lookup_insert_ne; [done|]. intros Heq. apply Hk. rewrite <- Heq. reflexivity. }
  split; [done|]. apply Hk, snitch_name_ne.
Qed.


(** X6: without faults, [Update] on a Todo with [Line >= 1] writes the
    scanned lines of its file, newline-terminated, with line [Line]
    replaced by the Todo's canonical form (nothing replaced past the last
    line). *)
Theorem Update_replaces_scanned_line (files : fs) (todo : Todo) (content : str) :
  files !! Filename todo = Some content -> (1 <= Line todo)%Z ->
  Update files no_faults todo
  = (<[Filename todo :=
         joinLines (<[Z.to_nat (Line todo - 1) := String todo]> (fst (scanLines content None)))]>
       (delete (Filename todo ++ lit ".snitch") files), None).
Proof. apply Update_replace. Qed.

(** X7: without faults, [Remove] on a Todo with [Line >= 1] writes the
    scanned lines of its file, newline-terminated, without line [Line]. *)
Theorem Remove_deletes_scanned_line (files : fs) (todo : Todo) (content : str) :
  files !! Filename todo = Some content -> (1 <= Line todo)%Z ->
  Remove files no_faults todo
  = (<[Filename todo :=
         joinLines (delete (Z.to_nat (Line todo - 1)) (fst (scanLines content None)))]>
       (delete (Filename todo ++ lit ".snitch") files), None).
Proof.
  intros Hf Hl. unfold Remove. rewrite (updateInPlace_ok _ _ _ _ content) by done.
  cbn [no_faults read_fault disk_space reader onDisk fst snd].
  rewrite emit_delete, decide_True by lia. done.
Qed.

End RewriteMore.

Module ReadLineFacts.
Import RewriteFacts.

Lemma buf_lt_max : 2 * defaultBufSize <= MaxScanTokenSize.
Proof. apply Nat.leb_le. vm_compute. reflexivity. Qed.

Lemma readLine_cut (rcur : str) :
  match rcur with
  | c' :: r' => if ascii_dec c' cr then rev r' else rev rcur
  | [] => []
  end = dropCR (rev rcur).
Proof.
  destruct rcur as [|c r]; [reflexivity|]. unfold dropCR. simpl rev.
  rewrite last_snoc. destruct (ascii_dec c cr); [|done].
  by rewrite removelast_last.
Qed.

Lemma readLine_nl (rcur d : str) (f : error) :
  readLine_go rcur (nl :: d) f
  = let '(texts, err) := readLine_go [] d f in (dropCR (rev rcur) :: texts, err).
Proof.
  simpl. destruct (ascii_dec nl nl); [|done]. by rewrite readLine_cut.
Qed.

Lemma readLine_final (d : str) : forall rcur f, snd (readLine_go rcur d f) = f.
Proof.
  induction d as [|c d IH]; intros rcur f; simpl.
  - by destruct rcur.
  - destruct (ascii_dec c nl).
    + specialize (IH [] f). destruct (readLine_go [] d f). done.
    + destruct (decide _); [|apply IH].
      destruct (ascii_dec c cr).
      * specialize (IH [cr] f). destruct (readLine_go [cr] d f). done.
      * specialize (IH [] f). destruct (readLine_go [] d f). done.
Qed.



Lemma scan_nl (rcur d : str) (e : option error) :
  length rcur < MaxScanTokenSize ->
  scan_go rcur (nl :: d) e
  = let '(toks, err) := scan_go [] d e in (dropCR (rev rcur) :: toks, err).
Proof.
  intros Hl. simpl. destruct (ascii_dec nl nl); [|done].
  by rewrite decide_False by lia.
Qed.

Lemma splitNL_head (data : str) : forall rcur,
  exists l rest, splitNL rcur data = (rev rcur ++ l) :: rest.
Proof.
  induction data as [|c data IH]; intros rcur; simpl.
  - exists [], []. by rewrite app_nil_r.
  - destruct (ascii_dec c nl).
    + exists [], (splitNL [] data). by rewrite app_nil_r.
    + destruct (IH (c :: rcur)) as (l & rest & ->). exists (c :: l), rest.
      simpl. by rewrite <- app_assoc.
Qed.

Lemma readLine_scan_agree (data : str) : forall rcur f,
  Forall (fun l => length l < defaultBufSize) (splitNL rcur data) ->
  last (rev rcur ++ data) <> Some cr ->
  exists ts, scan_go rcur data None = (ts, None) /\ readLine_go rcur data f = (ts, f).
Proof.
  pose proof buf_lt_max as Hmax.
  induction data as [|c data IH]; intros rcur f Hs Hl.
  - simpl in Hs. rewrite app_nil_r in Hl.
    apply Forall_cons in Hs as [Hlen _]. rewrite length_rev in Hlen.
    destruct rcur as [|x r]; simpl; [by eexists|].
    rewrite decide_False by (simpl in Hlen; lia).
    eexists. split; [reflexivity|]. rewrite dropCR_id by done. reflexivity.
  - destruct (ascii_dec c nl) as [->|Hc].
    + simpl in Hs. destruct (ascii_dec nl nl); [|done].
      apply Forall_cons in Hs as [Hlen Hs]. rewrite length_rev in Hlen.
      destruct (IH [] f Hs) as (ts & E1 & E2).
      { simpl. intros Hd. apply Hl. rewrite last_app_cons, last_cons, Hd. done. }
      rewrite scan_nl by lia. rewrite readLine_nl, E1, E2.
      by eexists.
    + simpl in Hs. destruct (ascii_dec c nl); [done|].
      destruct (splitNL_head data (c :: rcur)) as (l & rest & Eh).
      assert (Hlen := Hs). rewrite Eh in Hlen.
      apply Forall_cons in Hlen as [Hlen _].
      rewrite length_app, length_rev in Hlen. simpl in Hlen.
      simpl. destruct (ascii_dec c nl); [done|].
      rewrite decide_False by lia.
      apply IH; [done|]. simpl. by rewrite <- app_assoc.
Qed.

Lemma openFile_lines (files : fs) (path content : str) :
  files !! path = Some content ->
  Forall (fun l => length l < defaultBufSize) (splitNL [] content) ->
  last content <> Some cr ->
  snd (scanLines content None) = None /\
  openFile files (fun _ => None) path = Opened (fst (scanLines content None)) EOF.
Proof.
  intros Hf Hs Hl.
  destruct (readLine_scan_agree content [] EOF Hs Hl) as (ts & E1 & E2).
  unfold openFile, scanLines. rewrite Hf. simpl reader. rewrite E1, E2. done.
Qed.

(** X8: on a file whose newline-separated segments are all shorter than
    [bufio]'s default buffer (4096 bytes) and which does not end in a
    carriage return, the texts [WalkTodosOfFile] reads with
    [reader.ReadLine()] are the lines the scanner of [updateToFile] reads,
    and both end without error. *)
Theorem walker_lines_match_rewriter_lines (files : fs) (path content : str) :
  files !! path = Some content ->
  Forall (fun l => length l < defaultBufSize) (splitNL [] content) ->
  last content <> Some cr ->
  snd (scanLines content None) = None /\
  openFile files (fun _ => None) path = Opened (fst (scanLines content None)) EOF.
Proof. apply openFile_lines. Qed.


(** X10: a read error of the file (other than [io.EOF]) is never swallowed
    by [WalkTodosOfFile]: the walk returns an error. *)
Theorem walker_reports_read_faults (T : str -> str) {V : Type}
    (visit : V -> Todo -> V * option error) (files : fs)
    (rf : str -> option (nat * error)) (path content : str) (n : nat) (e : error) (v : V) :
  files !! path = Some content -> rf path = Some (n, e) -> e <> EOF ->
  snd (WalkTodosOfFile T visit (openFile files rf) path v) <> None.
Proof.
  intros Hf Hr He. unfold WalkTodosOfFile, openFile. rewrite Hf, Hr.
  cbn -[readLine_go walkLines].
  pose proof (readLine_final (take n content) [] e) as Hfin.
  destruct (readLine_go [] (take n content) e) as [texts final].
  simpl in Hfin. subst final.
  destruct (walkLines T visit path 1 texts v) as [[v' vs] [e'|]]; cbn [snd]; [done|].
  destruct e; done.
Qed.

End ReadLineFacts.

Module WalkMore.

Section Provenance.
Variable T : str -> str.
Context {V : Type}.
Variable visit : V -> Todo -> V * option error.

Lemma walkLines_provenance (path : str) (texts : list str) : forall n v v' vs err,
  walkLines T visit path n texts v = (v', vs, err) ->
  Sorted (fun t1 t2 => (Line t1 < Line t2)%Z) vs /\
  Forall (fun t => (n <= Line t)%Z /\
    exists text t0, texts !! Z.to_nat (Line t - n) = Some text /\
      LineAsTodo T text = Some t0 /\
      t = {| Prefix := Prefix t0; Suffix := Suffix t0; ID := ID t0;
             Filename := path; Line := Line t; Title := Title t0 |}) vs.
Proof.
  induction texts as [|text texts IH]; intros n v v' vs err H; simpl in H.
  - injection H as _ <- _. split; constructor.
  - assert (Hshift : forall t, ((n + 1 <= Line t)%Z /\
        exists text' t0, texts !! Z.to_nat (Line t - (n + 1)) = Some text' /\
          LineAsTodo T text' = Some t0 /\
          t = {| Prefix := Prefix t0; Suffix := Suffix t0; ID := ID t0;
                 Filename := path; Line := Line t; Title := Title t0 |}) ->
        (n <= Line t)%Z /\
        exists text' t0, (text :: texts) !! Z.to_nat (Line t - n) = Some text' /\
          LineAsTodo T text' = Some t0 /\
          t = {| Prefix := Prefix t0; Suffix := Suffix t0; ID := ID t0;
                 Filename := path; Line := Line t; Title := Title t0 |}).
    { intros t (Hn & text' & t0 & Hi & Hp & Ht). split; [lia|].
      exists text', t0. split_and!; [|done|done].
      replace (Z.to_nat (Line t - n)) with (S (Z.to_nat (Line t - (n + 1)))) by lia.
      exact Hi. }
    destruct (LineAsTodo T text) as [t0|] eqn:Et.
    + set (todo' := {| Prefix := Prefix t0; Suffix := Suffix t0; ID := ID t0;
                       Filename := path; Line := n; Title := Title t0 |}) in H.
      assert (Hhead : (n <= Line todo')%Z /\
        exists text' t1, (text :: texts) !! Z.to_nat (Line todo' - n) = Some text' /\
          LineAsTodo T text' = Some t1 /\
          todo' = {| Prefix := Prefix t1; Suffix := Suffix t1; ID := ID t1;
                     Filename := path; Line := Line todo'; Title := Title t1 |}).
      { simpl. split; [lia|]. exists text, t0. rewrite Z.sub_diag. done. }
      destruct (visit v todo') as [v1 [e1|]].
      * injection H as _ <- _. split.
        -- apply Sorted_cons; [apply Sorted_nil|apply HdRel_nil].
        -- constructor; [exact Hhead|constructor].
      * destruct (walkLines T visit path (n + 1)%Z texts v1) as [[v2 vs2] e2] eqn:Ew.
        injection H as _ <- _.
        destruct (IH _ _ _ _ _ Ew) as [HS HF]. split.
        -- constructor; [done|]. destruct vs2 as [|t2 vs2]; constructor.
           apply Forall_cons in HF as [[Hn2 _] _]. simpl. lia.
        -- constructor; [done|]. eapply Forall_impl; [exact HF|]. exact Hshift.
    + destruct (IH _ _ _ _ _ H) as [HS HF]. split; [done|].
      eapply Forall_impl; [exact HF|]. exact Hshift.
Qed.

End Provenance.

(** X11: the Todos [WalkTodosOfFile] visits come in strictly increasing
    line order; each has the walked path as [Filename] and a [Line] [n >= 1]
    such that the [n]-th text read from the file parses to a Todo with the
    same prefix, suffix, identifier and title. *)
Theorem walk_todo_provenance (T : str -> str) {V : Type}
    (visit : V -> Todo -> V * option error) (open : str -> openResult)
    (path : str) (texts : list str) (final : error) (v v' : V) (vs : list Todo)
    (err : option error) :
  open path = Opened texts final ->
  WalkTodosOfFile T visit open path v = (v', vs, err) ->
  Sorted (fun t1 t2 => (Line t1 < Line t2)%Z) vs /\
  Forall (fun t => (1 <= Line t)%Z /\
    exists text t0, texts !! Z.to_nat (Line t - 1) = Some text /\
      LineAsTodo T text = Some t0 /\
      t = {| Prefix := Prefix t0; Suffix := Suffix t0; ID := ID t0;
             Filename := path; Line := Line t; Title := Title t0 |}) vs.
Proof.
  intros Ho H. unfold WalkTodosOfFile in H. rewrite Ho in H.
  destruct (walkLines T visit path 1 texts v) as [[v1 vs1] e1] eqn:Ew.
  assert (vs1 = vs) as <-.
  { destruct e1; [by injection H|]. destruct final; by injection H. }
  eapply walkLines_provenance. exact Ew.
Qed.

(** X12: on a file of short lines (every segment under 4096 bytes, no
    final carriage return), [Update] with no fault on a Todo straight from
    [WalkTodosOfFile] rewrites the file to its scanned lines: the line the
    walker numbered is the Todo's own line, which it prints back
    unchanged. *)
Theorem walk_then_update_keeps_file (T : str -> str) {V : Type}
    (visit : V -> Todo -> V * option error) (files : fs) (path content : str)
    (v v' : V) (vs : list Todo) (err : option error) (t : Todo) :
  files !! path = Some content ->
  Forall (fun l => length l < defaultBufSize) (splitNL [] content) ->
  last content <> Some cr ->
  WalkTodosOfFile T visit (openFile files (fun _ => None)) path v = (v', vs, err) ->
  t ∈ vs ->
  Update files no_faults t
  = (<[path := joinLines (fst (scanLines content None))]>
       (delete (path ++ lit ".snitch") files), None).
Proof.
  intros Hf Hs Hl Hw Ht.
  destruct (ReadLineFacts.openFile_lines files path content Hf Hs Hl) as [_ Ho].
  unfold WalkTodosOfFile in Hw. rewrite Ho in Hw.
  destruct (walkLines T visit path 1 (fst (scanLines content None)) v)
    as [[v1 vs1] e1] eqn:Ew.
  assert (vs1 = vs) as <- by (destruct e1; by injection Hw).
  destruct (walkLines_provenance T visit _ _ _ _ _ _ _ Ew) as [_ HF].
  rewrite Forall_forall in HF.
  destruct (HF t Ht) as (Hn & text & t0 & Hi & Hp & Et).
  assert (Hfn : Filename t = path) by (rewrite Et; reflexivity).
  rewrite (RewriteMore.Update_replace files t content) by (rewrite ?Hfn; done).
  rewrite Hfn.
  assert (Hst : String t = text).
  { rewrite <- (ParseFacts.LineAsTodo_String_eq T text t0 Hp).
    rewrite Et. reflexivity. }
  rewrite Hst, list_insert_id by exact Hi. reflexivity.
Qed.

End WalkMore.

Module GithubFacts.

(** X13: [ReportTodo] returns (without panicking) exactly when the POST
    of the issue decodes to an object with a number under ["number"]; its
    error is then always nil, and the Todo comes back with the identifier
    ["#" ++ strconv.Itoa(int(number))] and its other fields unchanged. *)
Theorem ReportTodo_result_iff {float64 : Type} (float_to_int : float64 -> Z)
    (http : @Request float64 -> @Response float64) (token repo body : str) (todo t : Todo)
    (err : option error) :
  ReportTodo float_to_int http token repo body todo = Some (t, err) <->
  err = None /\
  exists v x,
    http (mkRequest (lit "POST") (lit "https://api.github.com/repos/" ++ repo ++ lit "/issues")
            token (Some (<[lit "title" := JStr (Title todo)]> {[ lit "body" := JStr body ]})))
    = DecodedObject v /\
    v !! lit "number" = Some (JNum x) /\
    t = {| Prefix := Prefix todo; Suffix := Suffix todo;
           ID := Some (lit "#" ++ Itoa (float_to_int x));
           Filename := Filename todo; Line := Line todo; Title := Title todo |}.
Proof.
  unfold ReportTodo, queryGithubAPI.
  destruct (http _) as [e|e|e| |v] eqn:Eh; cbn [index];
    try (split; [done|intros (_ & ? & ? & ? & _); done]).
  destruct (v !! lit "number") as [[| |x| |]|] eqn:En;
    try (split; [done|intros (_ & ? & ? & [= <-] & ? & _); congruence]).
  split.
  - intros [= <- <-]. split; [done|]. exists v, x. done.
  - intros (-> & v' & x' & [= <-] & Hx & ->). rewrite En in Hx.
    injection Hx as <-. done.
Qed.

(** X14: after a report, the status query of the returned Todo is the GET
    of ["https://api.github.com/repos/" ++ repo ++ "/issues/"] followed by
    the number the server returned (the ["#"] is dropped): its result is
    the error of the request, or the string under ["state"] of the decoded
    object, and a panic otherwise. *)
Theorem reported_status_queries_issue_number {float64 : Type}
    (float_to_int : float64 -> Z) (http : @Request float64 -> @Response float64)
    (token repo body : str) (todo t : Todo) (err : option error) :
  ReportTodo float_to_int http token repo body todo = Some (t, err) ->
  exists x,
    ID t = Some (lit "#" ++ Itoa (float_to_int x)) /\
    forall http' : @Request float64 -> @Response float64,
      RetrieveGithubStatus http' token repo t
      = match http' (mkRequest (lit "GET")
                       (lit "https://api.github.com/repos/" ++ repo ++ lit "/issues/"
                        ++ Itoa (float_to_int x)) token None) with
        | NewRequestError e | DoError e | DecodeError e => Some ([], Some e)
        | DecodedNull => None
        | DecodedObject v =>
            match v !! lit "state" with
            | Some (JStr state) => Some (state, None)
            | _ => None
            end
        end.
Proof.
  unfold ReportTodo, queryGithubAPI.
  destruct (http _) as [e|e|e| |v]; cbn [index]; try done.
  destruct (v !! lit "number") as [[| |x| |]|]; try done.
  intros [= <- _]. exists x. split; [done|].
  intros http'. unfold RetrieveGithubStatus, queryGithubAPI. cbn [ID].
  destruct (http' _); reflexivity.
Qed.

End GithubFacts.

Module ReportFacts.

Lemma askReport_line (j : str) : forall rcur rest,
  nl ∉ j ->
  askReport rcur (j ++ nl :: rest)
  = if decide (rev rcur ++ j ++ [nl] = lit "y" ++ [nl]) then Some (true, rest)
    else if decide (rev rcur ++ j ++ [nl] = lit "n" ++ [nl]) then Some (false, rest)
    else askReport [] rest.
Proof.
  induction j as [|c j IH]; intros rcur rest Hj; simpl.
  - destruct (ascii_dec nl nl); [done|congruence].
  - apply not_elem_of_cons in Hj as [Hc Hj].
    destruct (ascii_dec c nl); [congruence|].
    rewrite IH by done. simpl. by rewrite <- app_assoc.
Qed.

Lemma askReport_junk (junk : list str) (rest : str) :
  Forall (fun j => (nl ∉ j) /\ j <> lit "y" /\ j <> lit "n") junk ->
  askReport [] (concat (map (fun j => j ++ [nl]) junk) ++ rest) = askReport [] rest.
Proof.
  induction junk as [|j junk IH]; intros Hj; simpl; [done|].
  apply Forall_cons in Hj as [(Hn & Hy & Hno) Hj].
  rewrite <- !app_assoc. simpl. rewrite askReport_line by done. simpl.
  rewrite decide_False by (intros H; apply Hy; by apply (app_inj_tail _ (lit "y")) in H as [-> _]).
  rewrite decide_False by (intros H; apply Hno; by apply (app_inj_tail _ (lit "n")) in H as [-> _]).
  by apply IH.
Qed.

Lemma askReport_none (tl : str) : forall rcur, nl ∉ tl -> askReport rcur tl = None.
Proof.
  induction tl as [|c tl IH]; intros rcur Hn; simpl; [done|].
  apply not_elem_of_cons in Hn as [Hc Hn].
  destruct (ascii_dec c nl); [congruence|]. by apply IH.
Qed.

Lemma reportVisit_grows (st st' : str * list Todo) (todo : Todo) (err : option error) :
  reportVisit st todo = (st', err) ->
  exists new, snd st' = snd st ++ new /\ new `sublist_of` [todo] /\
              Forall (fun t => ID t = None) new.
Proof.
  destruct st as [input acc]. unfold reportVisit.
  destruct (ID todo) as [id|] eqn:Eid.
  - intros [= <- _]. exists []. rewrite app_nil_r. split_and!; [done|apply sublist_nil_l|done].
  - destruct (askReport [] input) as [[[] rest]|].
    + intros [= <- _]. exists [todo]. split_and!; [done|done|by constructor].
    + intros [= <- _]. exists []. rewrite app_nil_r. split_and!; [done|apply sublist_nil_l|done].
    + intros [= <- _]. exists []. rewrite app_nil_r. split_and!; [done|apply sublist_nil_l|done].
Qed.

Section Collect.
Variable T : str -> str.

Lemma walkLines_collect (path : str) (texts : list str) : forall n st st' vs err,
  walkLines T reportVisit path n texts st = (st', vs, err) ->
  exists new, snd st' = snd st ++ new /\ new `sublist_of` vs /\
              Forall (fun t => ID t = None) new.
Proof.
  induction texts as [|text texts IH]; intros n st st' vs err H; simpl in H.
  - injection H as <- <- _. exists []. rewrite app_nil_r.
    split_and!; [done|apply sublist_nil_l|done].
  - destruct (LineAsTodo T text) as [t0|]; [|eapply IH; exact H].
    set (todo' := {| Prefix := _ |}) in H.
    destruct (reportVisit st todo') as [st1 [e1|]] eqn:Ev;
      destruct (reportVisit_grows _ _ _ _ Ev) as (new1 & Hs1 & Hsub1 & Hf1).
    + injection H as <- <- _. by exists new1.
    + destruct (walkLines T reportVisit path (n + 1)%Z texts st1) as [[st2 vs2] e2] eqn:Ew.
      injection H as <- <- _.
      destruct (IH _ _ _ _ _ Ew) as (new2 & Hs2 & Hsub2 & Hf2).
      exists (new1 ++ new2). split_and!.
      * rewrite Hs2, Hs1. by rewrite <- app_assoc.
      * change (todo' :: vs2) with ([todo'] ++ vs2). by apply sublist_app.
      * by apply Forall_app.
Qed.

Lemma walkFile_collect (open : str -> openResult) (path : str) st st' vs err :
  WalkTodosOfFile T reportVisit open path st = (st', vs, err) ->
  exists new, snd st' = snd st ++ new /\ new `sublist_of` vs /\
              Forall (fun t => ID t = None) new.
Proof.
  unfold WalkTodosOfFile. destruct (open path) as [e|texts final].
  - intros [= <- <- _]. exists []. rewrite app_nil_r.
    split_and!; [done|apply sublist_nil_l|done].
  - destruct (walkLines T reportVisit path 1 texts st) as [[st1 vs1] e1] eqn:Ew.
    intros H. assert (st1 = st' /\ vs1 = vs) as [<- <-].
    { destruct e1; [by injection H as -> ->|]. destruct final; by injection H as -> ->. }
    by eapply walkLines_collect.
Qed.

Lemma walkFiles_collect (open : str -> openResult) (paths : list str) : forall st st' vs err,
  walkFiles T reportVisit open paths st = (st', vs, err) ->
  exists new, snd st' = snd st ++ new /\ new `sublist_of` vs /\
              Forall (fun t => ID t = None) new.
Proof.
  induction paths as [|path paths IH]; intros st st' vs err H; simpl in H.
  - injection H as <- <- _. exists []. rewrite app_nil_r.
    split_and!; [done|apply sublist_nil_l|done].
  - destruct (WalkTodosOfFile T reportVisit open path st) as [[st1 vs1] e1] eqn:Ef;
      destruct (walkFile_collect _ _ _ _ _ _ Ef) as (new1 & Hs1 & Hsub1 & Hf1).
    destruct e1 as [e1|].
    + injection H as <- <- _. by exists new1.
    + destruct (walkFiles T reportVisit open paths st1) as [[st2 vs2] e2] eqn:Ew.
      injection H as <- <- _.
      destruct (IH _ _ _ _ Ew) as (new2 & Hs2 & Hsub2 & Hf2).
      exists (new1 ++ new2). split_and!.
      * rewrite Hs2, Hs1. by rewrite <- app_assoc.
      * by apply sublist_app.
      * by apply Forall_app.
Qed.

End Collect.

(** X15: the report visitor leaves a reported Todo alone without reading
    input; on an unreported Todo it skips answer lines other than ["y"] and
    ["n"] and, at the first ["y"] or ["n"] line, consumes the input up to
    it and appends the Todo to [todosToReport] for ["y"] only. *)
Theorem reportVisit_answers (todo : Todo) (acc : list Todo) (junk : list str) (b : bool)
    (rest input : str) :
  (forall id, ID todo = Some id -> reportVisit (input, acc) todo = ((input, acc), None)) /\
  (ID todo = None ->
   Forall (fun j => (nl ∉ j) /\ j <> lit "y" /\ j <> lit "n") junk ->
   reportVisit (concat (map (fun j => j ++ [nl]) junk) ++
                  (if b then lit "y" else lit "n") ++ nl :: rest, acc) todo
   = ((rest, if b then acc ++ [todo] else acc), None)).
Proof.
  split.
  - intros id Hid. unfold reportVisit. by rewrite Hid.
  - intros Hid Hj. unfold reportVisit. rewrite Hid, askReport_junk by done.
    rewrite (askReport_line (if b then lit "y" else lit "n")) by (destruct b; apply (bool_decide_unpack _); vm_compute; reflexivity).
    destruct b; simpl; reflexivity.
Qed.

(** X16: when the input ends before a line ["y"] or ["n"], the visitor
    fails on an unreported Todo with [io.EOF], all input consumed and
    [todosToReport] unchanged. *)
Theorem reportVisit_eof (todo : Todo) (acc : list Todo) (junk : list str) (tl : str) :
  ID todo = None ->
  Forall (fun j => (nl ∉ j) /\ j <> lit "y" /\ j <> lit "n") junk ->
  nl ∉ tl ->
  reportVisit (concat (map (fun j => j ++ [nl]) junk) ++ tl, acc) todo
  = (([], acc), Some EOF).
Proof.
  intros Hid Hj Htl. unfold reportVisit. rewrite Hid, askReport_junk by done.
  by rewrite askReport_none.
Qed.

(** X17: whatever the listing, the files and the input, the
    [todosToReport] that [reportSubcommand]'s walk collects, starting
    empty, are unreported Todos among the visited ones, in visiting order
    and each visit at most once. *)
Theorem report_collects_unreported (T : str -> str) (ls : lsResult)
    (open : str -> openResult) (input : str) (st' : str * list Todo)
    (vs : list Todo) (err : option error) :
  WalkTodosOfDir T reportVisit ls open (input, []) = (st', vs, err) ->
  snd st' `sublist_of` vs /\ Forall (fun t => ID t = None) (snd st').
Proof.
  unfold WalkTodosOfDir. destruct ls as [e|paths].
  - intros [= <- <- _]. split; [apply sublist_nil_l|done].
  - intros H. destruct (walkFiles_collect _ _ _ _ _ _ _ H) as (new & -> & Hsub & Hf).
    done.
Qed.

End ReportFacts.

Module ListFacts.


Section Walks.
Variable T : str -> str.



Context {V : Type}.
Variable visit : V -> Todo -> V * option error.



End Walks.


End ListFacts.

Module LegacyFacts.
Import Shapes ShapesFacts Unreported.
Import Legacy.

Lemma removelast_sub (x : ascii) (l : str) : x ∈ removelast l -> x ∈ l.
Proof.
  rewrite removelast_firstn_len. intros H.
  rewrite <- (take_drop (Init.Nat.pred (length l)) l). apply elem_of_app. by left.
Qed.

Lemma dropCR_notin (l : str) : nl ∉ l -> nl ∉ dropCR l.
Proof.
  unfold dropCR. destruct (last l) as [c|]; [|done].
  destruct (ascii_dec c cr); [|done].
  intros H Hin. apply H. exact (removelast_sub _ _ Hin).
Qed.

Lemma scan_go_nl (data : str) : forall rcur e,
  nl ∉ rcur -> Forall (fun l => nl ∉ l) (fst (scan_go rcur data e)).
Proof.
  induction data as [|c data IH]; intros rcur e Hr; simpl.
  - destruct rcur as [|a rcur]; [constructor|].
    destruct (decide _); [constructor|].
    constructor; [|constructor]. apply dropCR_notin.
    intros Hin. apply Hr. apply list_elem_of_In. apply in_rev.
    apply list_elem_of_In. exact Hin.
  - destruct (ascii_dec c nl) as [Hc|Hc].
    + destruct (decide _); [constructor|].
      specialize (IH [] e). destruct (scan_go [] data e) as [toks err].
      cbn [fst] in *. constructor.
      * apply dropCR_notin. intros Hin. apply Hr. apply list_elem_of_In. apply in_rev.
        apply list_elem_of_In. exact Hin.
      * apply IH. apply not_elem_of_nil.
    + apply IH. apply not_elem_of_cons. split; [|done]. intros Heq. apply Hc. by symmetry.
Qed.

Lemma Legacy_LineAsTodo_spec (line : str) (t : Legacy.Todo) :
  Legacy.LineAsTodo line = Some t ->
  Id t = None /\ Filename t = [] /\ Line t = 0%Z /\ line = Prefix t ++ lit "TODO: " ++ Suffix t.
Proof.
  unfold Legacy.LineAsTodo. rewrite unreportedTodoRe_pat1.
  destruct (FindStringSubmatch (pat1 (lit "TODO: ")) line) as [g|] eqn:E; [|done].
  intros [= <-].
  destruct (find_pat1_some _ _ _ E) as (p & s & -> & Hl & _). done.
Qed.

Lemma Legacy_LineAsTodo_accepts (line : str) :
  is_Some (Legacy.LineAsTodo line) <-> (nl ∉ line) /\ contains (lit "TODO: ") line.
Proof.
  rewrite <- (ParseFacts.unreported_accepts (fun s => s) line).
  unfold Legacy.LineAsTodo, lineAsUnreportedTodo.
  destruct (FindStringSubmatch unreportedTodoRe line); split; intros [x Hx];
    [by eexists|by eexists|discriminate|discriminate].
Qed.

Lemma todosOfLines_spec (path : str) (lines : list str) : forall n,
  Sorted (fun t1 t2 => (Line t1 < Line t2)%Z) (todosOfLines path n lines) /\
  Forall (fun t => Id t = None /\ Filename t = path /\ (n <= Line t)%Z /\
    lines !! Z.to_nat (Line t - n) = Some (Prefix t ++ lit "TODO: " ++ Suffix t))
    (todosOfLines path n lines) /\
  (forall i l, lines !! i = Some l -> nl ∉ l -> contains (lit "TODO: ") l ->
     exists t, t ∈ todosOfLines path n lines /\ Line t = (n + Z.of_nat i)%Z).
Proof.
  induction lines as [|text lines IH]; intros n; simpl.
  - split_and!; [constructor|constructor|]. intros i l Hl. by rewrite lookup_nil in Hl.
  - destruct (IH (n + 1)%Z) as (HS & HF & HC).
    assert (Hshift : forall t, Id t = None /\ Filename t = path /\ (n + 1 <= Line t)%Z /\
        lines !! Z.to_nat (Line t - (n + 1)) = Some (Prefix t ++ lit "TODO: " ++ Suffix t) ->
        Id t = None /\ Filename t = path /\ (n <= Line t)%Z /\
        (text :: lines) !! Z.to_nat (Line t - n) = Some (Prefix t ++ lit "TODO: " ++ Suffix t)).
    { intros t (Hi & Hf & Hn & Hl). split_and!; [done|done|lia|].
      replace (Z.to_nat (Line t - n)) with (S (Z.to_nat (Line t - (n + 1)))) by lia.
      exact Hl. }
    destruct (Legacy.LineAsTodo text) as [t0|] eqn:Et.
    + destruct (Legacy_LineAsTodo_spec _ _ Et) as (Hi & _ & _ & Htext).
      split_and!.
      * constructor; [done|]. destruct (todosOfLines path (n + 1)%Z lines) as [|t2 r];
          constructor. apply Forall_cons in HF as [(_ & _ & Hn2 & _) _]. simpl. lia.
      * constructor.
        -- cbn [Id Filename Line Prefix Suffix]. split_and!; [done|done|lia|].
           rewrite Z.sub_diag. simpl. by rewrite Htext.
        -- eapply Forall_impl; [exact HF|]. exact Hshift.
      * intros [|i] l Hl Hn Hc.
        -- exists {| Prefix := Prefix t0; Suffix := Suffix t0; Id := Id t0;
                     Filename := path; Line := n |}.
           split; [apply list_elem_of_here|]. simpl. lia.
        -- destruct (HC i l Hl Hn Hc) as (t & Ht & Hline).
           exists t. split; [by apply list_elem_of_further|]. lia.
    + split_and!; [done| |].
      * eapply Forall_impl; [exact HF|]. exact Hshift.
      * intros [|i] l Hl Hn Hc.
        -- simpl in Hl. injection Hl as <-.
           destruct (proj2 (Legacy_LineAsTodo_accepts text) (conj Hn Hc)) as [t0 Ht0].
           congruence.
        -- destruct (HC i l Hl Hn Hc) as (t & Ht & Hline).
           exists t. split; [done|]. lia.
Qed.

Lemma TodosOfFile_spec (files : fs) (rf : str -> option (nat * error)) (path : str) :
  match files !! path with
  | None => TodosOfFile files rf path = ([], Some ENOENT)
  | Some content =>
      TodosOfFile files rf path
      = (todosOfLines path 1 (fst (scanLines (fst (reader content (rf path)))
                                             (snd (reader content (rf path))))),
         snd (scanLines (fst (reader content (rf path))) (snd (reader content (rf path)))))
  end.
Proof.
  unfold TodosOfFile. destruct (files !! path) as [content|]; [|done].
  destruct (reader content (rf path)) as [data rerr]. cbn [fst snd].
  destruct (scanLines data rerr) as [lines err]. done.
Qed.

(** X19: for a file that exists, [TodosOfFile] returns the scanner's
    error and, in increasing line order, one Todo per scanned line that
    contains ["TODO: "]: the Todo of line [n] has no identifier, the
    file's path and [Line = n], and prefix ++ ["TODO: "] ++ suffix is that
    line. *)
Theorem TodosOfFile_scanned_todos (files : fs) (rf : str -> option (nat * error))
    (path content : str) (lines : list str) (err : option error) :
  files !! path = Some content ->
  scanLines (fst (reader content (rf path))) (snd (reader content (rf path))) = (lines, err) ->
  snd (TodosOfFile files rf path) = err /\
  Sorted (fun t1 t2 => (Line t1 < Line t2)%Z) (fst (TodosOfFile files rf path)) /\
  Forall (fun t => Id t = None /\ Filename t = path /\ (1 <= Line t)%Z /\
    lines !! Z.to_nat (Line t - 1) = Some (Prefix t ++ lit "TODO: " ++ Suffix t))
    (fst (TodosOfFile files rf path)) /\
  (forall i l, lines !! i = Some l -> contains (lit "TODO: ") l ->
     exists t, t ∈ fst (TodosOfFile files rf path) /\ Line t = Z.of_nat (S i)).
Proof.
  intros Hf Hs. pose proof (TodosOfFile_spec files rf path) as E.
  rewrite Hf, Hs in E. rewrite E. cbn [fst snd].
  destruct (todosOfLines_spec path lines 1) as (HS & HF & HC).
  split_and!; [done|done|done|].
  intros i l Hl Hc.
  assert (Hn : nl ∉ l).
  { pose proof (scan_go_nl (fst (reader content (rf path))) [] (snd (reader content (rf path)))
                  (not_elem_of_nil _)) as HN.
    unfold scanLines in Hs. rewrite Hs in HN. cbn [fst] in HN.
    exact (proj1 (Forall_lookup _ _) HN _ _ Hl). }
  destruct (HC i l Hl Hn Hc) as (t & Ht & Hline). exists t. split; [done|lia].
Qed.

Lemma TodosOfDir_ok (files : fs) (rf : str -> option (nat * error)) (paths : list str) :
  Forall (fun q => snd (TodosOfFile files rf q) = None) paths ->
  TodosOfDir files rf paths = (concat (map (fun q => fst (TodosOfFile files rf q)) paths), None).
Proof.
  induction paths as [|q paths IH]; intros H; [done|].
  apply Forall_cons in H as [Hq H]. simpl.
  destruct (TodosOfFile files rf q) as [todos e] eqn:Eq. cbn [snd] in Hq. subst e.
  rewrite (IH H). done.
Qed.

(** X20: [TodosOfDir] stops at the first file that fails: it returns that
    file's error and the Todos of the files before it, in order; the Todos
    the failing file did yield are dropped and later files are not
    read. *)
Theorem TodosOfDir_stops_at_first_error (files : fs) (rf : str -> option (nat * error))
    (pre : list str) (p : str) (post : list str) (e : error) :
  Forall (fun q => snd (TodosOfFile files rf q) = None) pre ->
  snd (TodosOfFile files rf p) = Some e ->
  TodosOfDir files rf (pre ++ p :: post)
  = (concat (map (fun q => fst (TodosOfFile files rf q)) pre), Some e).
Proof.
  induction pre as [|q pre IH]; intros Hpre Hp; simpl.
  - destruct (TodosOfFile files rf p) as [todos e'] eqn:Ep. cbn [snd] in Hp. by subst e'.
  - apply Forall_cons in Hpre as [Hq Hpre].
    destruct (TodosOfFile files rf q) as [todos e'] eqn:Eq. cbn [snd] in Hq. subst e'.
    rewrite (IH Hpre Hp). done.
Qed.



End LegacyFacts.

Module MiddleFacts.



Lemma collect_walkLines_app (path : str) (lines : list str) : forall n r,
  Middle.walkLines Middle.collect path n lines r
  = (r ++ fst (Middle.walkLines Middle.collect path n lines []), None).
Proof.
  induction lines as [|text lines IH]; intros n r; simpl.
  - by rewrite app_nil_r.
  - destruct (Middle.LineAsTodo text) as [t0|]; [|apply IH].
    unfold Middle.collect. simpl. rewrite (IH _ (r ++ _)), (IH _ [_]).
    cbn [fst]. by rewrite <- !app_assoc.
Qed.


Lemma collect_file_app (files : fs) (rf : str -> option (nat * error)) (path : str)
    (r : list Legacy.Todo) :
  Middle.WalkTodosOfFile Middle.collect files rf path r
  = (r ++ fst (Middle.WalkTodosOfFile Middle.collect files rf path []),
     snd (Middle.WalkTodosOfFile Middle.collect files rf path [])).
Proof.
  unfold Middle.WalkTodosOfFile. destruct (files !! path) as [content|];
    [|by rewrite app_nil_r].
  destruct (reader content (rf path)) as [data rerr]. cbn [fst snd].
  destruct (scanLines data rerr) as [lines err].
  rewrite (collect_walkLines_app path lines 1 r), (collect_walkLines_app path lines 1 []).
  done.
Qed.

(** X22: the [TodosOfDir] of part_001 stops at the first file whose
    walk fails and returns that error; unlike the earlier program it keeps,
    after the Todos of the files before it, the Todos the failing file
    yielded before its error. *)
Theorem Middle_TodosOfDir_keeps_partial_file (files : fs) (rf : str -> option (nat * error))
    (pre : list str) (p : str) (post : list str) (e : error) :
  Forall (fun q => snd (Middle.WalkTodosOfFile Middle.collect files rf q []) = None) pre ->
  snd (Middle.WalkTodosOfFile Middle.collect files rf p []) = Some e ->
  Middle.TodosOfDir files rf (pre ++ p :: post)
  = (concat (map (fun q => fst (Middle.WalkTodosOfFile Middle.collect files rf q [])) pre)
       ++ fst (Middle.WalkTodosOfFile Middle.collect files rf p []), Some e).
Proof.
  intros Hpre Hp. unfold Middle.TodosOfDir.
  assert (Hgen : forall r, Middle.walkPaths files rf (pre ++ p :: post) r
    = (r ++ concat (map (fun q => fst (Middle.WalkTodosOfFile Middle.collect files rf q [])) pre)
         ++ fst (Middle.WalkTodosOfFile Middle.collect files rf p []), Some e)).
  { induction pre as [|q pre IH]; intros r; simpl.
    - rewrite collect_file_app, Hp. done.
    - apply Forall_cons in Hpre as [Hq Hpre].
      rewrite collect_file_app, Hq, (IH Hpre). by rewrite <- !app_assoc. }
  rewrite Hgen. done.
Qed.



End MiddleFacts.

(** ** The theorems at work on concrete inputs *)

Module Witnesses.
Import Occurrence.

Ltac decided := apply (bool_decide_unpack _); vm_compute; reflexivity.
Ltac absent := rewrite contains_spec; apply not_true_iff_false; vm_compute; reflexivity.

Lemma canonical_form_roundtrip_witness :
  (nl ∉ Prefix c2_reported) /\ (nl ∉ Suffix c2_reported) /\
  exists t', LineAsTodo (fun s => s) (String c2_reported) = Some t' /\
    Prefix t' = Prefix c2_reported /\ Suffix t' = Suffix c2_reported /\
    ID t' = ID c2_reported.
Proof.
  split_and!; [decided|decided|].
  apply (RoundTrip.canonical_form_roundtrip (fun s => s) c2_reported);
    [decided|decided|].
  simpl. split_and!; first [decided|absent].
Defined.

Lemma unreported_shape_takes_precedence_witness :
  FindStringSubmatch reportedTodoRe c3_reported_line
  = Some [c3_reported_line; lit "x "; lit "#1"; lit "y"] /\
  LineAsTodo (fun s => s) c3_reported_line
  = Some {| Prefix := lit "x "; Suffix := lit "y"; ID := Some (lit "#1");
            Filename := []; Line := 0; Title := lit "y" |}.
Proof.
  split; [vm_compute; reflexivity|].
  apply (Precedence.unreported_shape_takes_precedence (fun s => s) c3_reported_line
           [c3_reported_line; lit "x "; lit "#1"; lit "y"]);
    [vm_compute; reflexivity|absent].
Defined.

Lemma walk_aborts_on_first_error_witness :
  walkFiles (fun s => s) c4_visit c4_open [lit "a.go"] 0 = (1, [c4_todo], None) /\
  WalkTodosOfFile (fun s => s) c4_visit c4_open (lit "b.go") 1 = (1, [], Some EACCES) /\
  WalkTodosOfDir (fun s => s) c4_visit (LsOk [lit "a.go"; lit "b.go"; lit "c.go"])
    c4_open 0 = (1, [c4_todo], Some EACCES).
Proof.
  split_and!; [vm_compute; reflexivity|vm_compute; reflexivity|].
  refine (proj1 (proj2 (WalkFacts.walk_aborts_on_first_error (fun s => s) c4_visit
            c4_open [lit "a.go"] (lit "b.go") [lit "c.go"] 0 1 1 [c4_todo] [] EACCES
            _ _))); vm_compute; reflexivity.
Defined.

Lemma identity_rewrite_normalizes_final_newline_witness :
  c5_clean_files !! lit "f.go" = Some c5_clean /\
  snd (scanLines c5_clean None) = None /\
  updateToFile c5_clean_files no_faults c5_todo (lit "f.go.snitch") identityCallback
  = (<[lit "f.go.snitch" := c5_clean ++ [nl]]> c5_clean_files, None).
Proof.
  split_and!; [vm_compute; reflexivity|vm_compute; reflexivity|].
  rewrite (RewriteFacts.identity_rewrite_normalizes_final_newline c5_clean_files c5_todo
             (lit "f.go.snitch") c5_clean); [reflexivity|vm_compute; reflexivity..|absent|decided].
Defined.

Lemma parse_canonical_parse_stable_witness :
  FindStringSubmatch unreportedTodoRe c9_line
  = Some [c9_line; lit "a TODO: b "; lit "c"] /\
  exists t, LineAsTodo (fun s => s) c9_line = Some t /\
            LineAsTodo (fun s => s) (String t) = Some t.
Proof.
  split; [vm_compute; reflexivity|].
  apply (Unreported.parse_canonical_parse_stable (fun s => s) c9_line
           [c9_line; lit "a TODO: b "; lit "c"]).
  vm_compute; reflexivity.
Defined.

Lemma unreported_splits_at_last_marker_witness :
  lineAsUnreportedTodo (fun s => s) c9_line = Some c9_todo /\
  Prefix c9_todo ++ lit "TODO: " ++ Suffix c9_todo = c9_line /\
  ~ contains (lit "TODO: ") (Suffix c9_todo).
Proof.
  split; [vm_compute; reflexivity|].
  apply (Unreported.unreported_splits_at_last_marker (fun s => s) c9_line c9_todo).
  vm_compute; reflexivity.
Defined.

End Witnesses.

(** ** The further properties at work on concrete inputs *)

Module ExtraWitnesses.
Import Occurrence.

Ltac decided := apply (bool_decide_unpack _); vm_compute; reflexivity.
Ltac computed := vm_compute; reflexivity.

Lemma reported_splits_at_last_markers_witness :
  lineAsReportedTodo (fun s => s) c3_reported_line = Some x_parsed /\
  exists id, ID x_parsed = Some id /\
    Prefix x_parsed ++ lit "TODO(" ++ id ++ lit "): " ++ Suffix x_parsed = c3_reported_line /\
    ~ contains (lit "TODO(") id /\ ~ contains (lit "): ") (Suffix x_parsed).
Proof.
  split; [computed|].
  apply (ParseFacts.reported_splits_at_last_markers (fun s => s)). computed.
Defined.

Lemma parsed_todo_prints_as_line_witness :
  LineAsTodo (fun s => s) c3_reported_line = Some x_parsed /\
  String x_parsed = c3_reported_line.
Proof.
  split; [computed|].
  apply (ParseFacts.parsed_todo_prints_as_line (fun s => s)). computed.
Defined.

Lemma updateInPlace_error_keeps_files_witness :
  updateInPlace c5_files x_rename_fault c5_todo identityCallback
  = (<[lit "f.go.snitch" := lit "a" ++ [nl] ++ lit "b" ++ [nl]]> c5_files, Some EACCES) /\
  (forall k, k <> Filename c5_todo ++ lit ".snitch" ->
     (<[lit "f.go.snitch" := lit "a" ++ [nl] ++ lit "b" ++ [nl]]> c5_files) !! k = c5_files !! k) /\
  (<[lit "f.go.snitch" := lit "a" ++ [nl] ++ lit "b" ++ [nl]]> c5_files) !! Filename c5_todo
  = c5_files !! Filename c5_todo.
Proof.
  split; [computed|].
  apply (RewriteMore.updateInPlace_error_keeps_files c5_files _ x_rename_fault c5_todo
           identityCallback EACCES).
  computed.
Defined.


Lemma Update_replaces_scanned_line_witness :
  x_files !! Filename x_todo = Some x_content /\ (1 <= Line x_todo)%Z /\
  Update x_files no_faults x_todo
  = (<[lit "f.go" := lit "x" ++ [nl] ++ lit "// TODO(#7): a" ++ [nl]]>
       (delete (lit "f.go.snitch") x_files), None).
Proof.
  split_and!; [computed|decided|].
  rewrite (RewriteMore.Update_replaces_scanned_line x_files x_todo x_content)
    by first [computed|decided].
  computed.
Defined.

Lemma Remove_deletes_scanned_line_witness :
  x_files !! Filename x_todo = Some x_content /\ (1 <= Line x_todo)%Z /\
  Remove x_files no_faults x_todo
  = (<[lit "f.go" := lit "x" ++ [nl]]> (delete (lit "f.go.snitch") x_files), None).
Proof.
  split_and!; [computed|decided|].
  rewrite (RewriteMore.Remove_deletes_scanned_line x_files x_todo x_content)
    by first [computed|decided].
  computed.
Defined.

Lemma walker_lines_match_rewriter_lines_witness :
  c5_clean_files !! lit "f.go" = Some c5_clean /\
  Forall (fun l => length l < defaultBufSize) (splitNL [] c5_clean) /\
  last c5_clean <> Some cr /\
  snd (scanLines c5_clean None) = None /\
  openFile c5_clean_files (fun _ => None) (lit "f.go")
  = Opened (fst (scanLines c5_clean None)) EOF.
Proof.
  assert (H1 : c5_clean_files !! lit "f.go" = Some c5_clean) by computed.
  assert (H2 : Forall (fun l => length l < defaultBufSize) (splitNL [] c5_clean))
    by decided.
  assert (H3 : last c5_clean <> Some cr) by decided.
  split_and!; [exact H1|exact H2|exact H3|..];
    apply (ReadLineFacts.walker_lines_match_rewriter_lines c5_clean_files (lit "f.go")
             c5_clean H1 H2 H3).
Defined.


Lemma walker_reports_read_faults_witness :
  c5_files !! lit "f.go" = Some c5_content /\
  snd (WalkTodosOfFile (fun s => s) c4_visit
         (openFile c5_files (fun _ => Some (3, EIO))) (lit "f.go") 0) <> None.
Proof.
  split; [computed|].
  apply (ReadLineFacts.walker_reports_read_faults (fun s => s) c4_visit c5_files
           (fun _ => Some (3, EIO)) (lit "f.go") c5_content 3 EIO 0);
    [computed|reflexivity|discriminate].
Defined.

Lemma walk_todo_provenance_witness :
  c4_open (lit "a.go") = Opened [lit "// TODO: x"; lit "y"] EOF /\
  WalkTodosOfFile (fun s => s) c4_visit c4_open (lit "a.go") 0 = (1, [c4_todo], None) /\
  Sorted (fun t1 t2 => (Line t1 < Line t2)%Z) [c4_todo] /\
  Forall (fun t => (1 <= Line t)%Z /\
    exists text t0, [lit "// TODO: x"; lit "y"] !! Z.to_nat (Line t - 1) = Some text /\
      LineAsTodo (fun s => s) text = Some t0 /\
      t = {| Prefix := Prefix t0; Suffix := Suffix t0; ID := ID t0;
             Filename := lit "a.go"; Line := Line t; Title := Title t0 |}) [c4_todo].
Proof.
  assert (H1 : c4_open (lit "a.go") = Opened [lit "// TODO: x"; lit "y"] EOF) by computed.
  assert (H2 : WalkTodosOfFile (fun s => s) c4_visit c4_open (lit "a.go") 0
               = (1, [c4_todo], None)) by computed.
  split_and!; [exact H1|exact H2|..];
    apply (WalkMore.walk_todo_provenance (fun s => s) c4_visit c4_open (lit "a.go")
             [lit "// TODO: x"; lit "y"] EOF 0 1 [c4_todo] None H1 H2).
Defined.

Lemma walk_then_update_keeps_file_witness :
  WalkTodosOfFile (fun s => s) c4_visit (openFile x_files (fun _ => None)) (lit "f.go") 0
  = (1, [x_walked], None) /\
  Update x_files no_faults x_walked
  = (<[lit "f.go" := joinLines (fst (scanLines x_content None))]>
       (delete (lit "f.go" ++ lit ".snitch") x_files), None).
Proof.
  assert (H : WalkTodosOfFile (fun s => s) c4_visit (openFile x_files (fun _ => None))
                (lit "f.go") 0 = (1, [x_walked], None)) by computed.
  split; [exact H|].
  apply (WalkMore.walk_then_update_keeps_file (fun s => s) c4_visit x_files (lit "f.go")
           x_content 0 1 [x_walked] None x_walked); [computed|decided|decided|exact H|].
  apply list_elem_of_here.
Defined.

Lemma reported_status_queries_issue_number_witness :
  ReportTodo (fun z => z) (x_http 42) [] (lit "o/r") [] c4_todo = Some (x_reported, None) /\
  exists x,
    ID x_reported = Some (lit "#" ++ Itoa x) /\
    forall http' : @Request Z -> @Response Z,
      RetrieveGithubStatus http' [] (lit "o/r") x_reported
      = match http' (mkRequest (lit "GET")
                       (lit "https://api.github.com/repos/" ++ lit "o/r" ++ lit "/issues/"
                        ++ Itoa x) [] None) with
        | NewRequestError e | DoError e | DecodeError e => Some ([], Some e)
        | DecodedNull => None
        | DecodedObject v =>
            match v !! lit "state" with
            | Some (JStr state) => Some (state, None)
            | _ => None
            end
        end.
Proof.
  assert (H : ReportTodo (fun z => z) (x_http 42) [] (lit "o/r") [] c4_todo
              = Some (x_reported, None)) by computed.
  split; [exact H|].
  exact (GithubFacts.reported_status_queries_issue_number (fun z => z) (x_http 42) []
           (lit "o/r") [] c4_todo x_reported None H).
Defined.

Lemma reportVisit_answers_witness :
  reportVisit (lit "maybe" ++ [nl] ++ lit "y" ++ [nl] ++ lit "z", []) c4_todo
  = ((lit "z", [c4_todo]), None).
Proof.
  exact (proj2 (ReportFacts.reportVisit_answers c4_todo [] [lit "maybe"] true (lit "z") [])
           eq_refl ltac:(decided)).
Defined.

Lemma reportVisit_eof_witness :
  reportVisit (lit "maybe" ++ [nl] ++ lit "ye", []) c4_todo = (([], []), Some EOF).
Proof.
  exact (ReportFacts.reportVisit_eof c4_todo [] [lit "maybe"] (lit "ye") eq_refl
           ltac:(decided) ltac:(decided)).
Defined.

Lemma report_collects_unreported_witness :
  WalkTodosOfDir (fun s => s) reportVisit (LsOk [lit "a.go"]) c4_open (lit "y" ++ [nl], [])
  = (([], [c4_todo]), [c4_todo], None) /\
  [c4_todo] `sublist_of` [c4_todo] /\ Forall (fun t => ID t = None) [c4_todo].
Proof.
  assert (H : WalkTodosOfDir (fun s => s) reportVisit (LsOk [lit "a.go"]) c4_open
                (lit "y" ++ [nl], []) = (([], [c4_todo]), [c4_todo], None)) by computed.
  split; [exact H|].
  exact (ReportFacts.report_collects_unreported (fun s => s) (LsOk [lit "a.go"]) c4_open
           (lit "y" ++ [nl]) ([], [c4_todo]) [c4_todo] None H).
Defined.

End ExtraWitnesses.

Module LegacyWitnesses.
Import Legacy.

Lemma TodosOfFile_scanned_todos_witness :
  x_files !! lit "f.go" = Some x_content /\
  scanLines (fst (reader x_content None)) (snd (reader x_content None))
    = ([lit "x"; lit "// TODO: a"], None) /\
  TodosOfFile x_files (fun _ => None) (lit "f.go") = ([x_legacy_todo], None) /\
  snd (TodosOfFile x_files (fun _ => None) (lit "f.go")) = None /\
  Sorted (fun t1 t2 => (Line t1 < Line t2)%Z) (fst (TodosOfFile x_files (fun _ => None) (lit "f.go"))) /\
  Forall (fun t => Id t = None /\ Filename t = lit "f.go" /\ (1 <= Line t)%Z /\
    [lit "x"; lit "// TODO: a"] !! Z.to_nat (Line t - 1) = Some (Prefix t ++ lit "TODO: " ++ Suffix t))
    (fst (TodosOfFile x_files (fun _ => None) (lit "f.go"))) /\
  (forall i l, [lit "x"; lit "// TODO: a"] !! i = Some l -> contains (lit "TODO: ") l ->
     exists t, t ∈ fst (TodosOfFile x_files (fun _ => None) (lit "f.go")) /\ Line t = Z.of_nat (S i)).
Proof.
  assert (H1 : x_files !! lit "f.go" = Some x_content) by (vm_compute; reflexivity).
  assert (H2 : scanLines (fst (reader x_content None)) (snd (reader x_content None))
               = ([lit "x"; lit "// TODO: a"], None)) by (vm_compute; reflexivity).
  split; [exact H1|]. split; [exact H2|]. split; [vm_compute; reflexivity|].
  exact (LegacyFacts.TodosOfFile_scanned_todos x_files (fun _ => None) (lit "f.go") x_content
           [lit "x"; lit "// TODO: a"] None H1 H2).
Defined.

Lemma TodosOfDir_stops_at_first_error_witness :
  snd (TodosOfFile x_files (fun _ => None) (lit "f.go")) = None /\
  snd (TodosOfFile x_files (fun _ => None) (lit "g.go")) = Some ENOENT /\
  TodosOfDir x_files (fun _ => None) ([lit "f.go"] ++ lit "g.go" :: [lit "f.go"])
  = ([x_legacy_todo], Some ENOENT).
Proof.
  assert (H1 : snd (TodosOfFile x_files (fun _ => None) (lit "f.go")) = None)
    by (vm_compute; reflexivity).
  assert (H2 : snd (TodosOfFile x_files (fun _ => None) (lit "g.go")) = Some ENOENT)
    by (vm_compute; reflexivity).
  split; [exact H1|]. split; [exact H2|].
  rewrite (LegacyFacts.TodosOfDir_stops_at_first_error x_files (fun _ => None) [lit "f.go"]
             (lit "g.go") [lit "f.go"] ENOENT); [|constructor; [exact H1|constructor]|exact H2].
  vm_compute. reflexivity.
Defined.

Lemma Middle_TodosOfDir_keeps_partial_file_witness :
  snd (Middle.WalkTodosOfFile Middle.collect x_two_files x_fail_g (lit "f.go") []) = None /\
  snd (Middle.WalkTodosOfFile Middle.collect x_two_files x_fail_g (lit "g.go") []) = Some EIO /\
  Middle.TodosOfDir x_two_files x_fail_g ([lit "f.go"] ++ lit "g.go" :: [lit "f.go"])
  = ([x_legacy_todo; x_legacy_todo_g], Some EIO).
Proof.
  assert (H1 : snd (Middle.WalkTodosOfFile Middle.collect x_two_files x_fail_g (lit "f.go") [])
               = None) by (vm_compute; reflexivity).
  assert (H2 : snd (Middle.WalkTodosOfFile Middle.collect x_two_files x_fail_g (lit "g.go") [])
               = Some EIO) by (vm_compute; reflexivity).
  split; [exact H1|]. split; [exact H2|].
  rewrite (MiddleFacts.Middle_TodosOfDir_keeps_partial_file x_two_files x_fail_g [lit "f.go"]
             (lit "g.go") [lit "f.go"] EIO); [|constructor; [exact H1|constructor]|exact H2].
  vm_compute. reflexivity.
Defined.

End LegacyWitnesses.
